(** * Ledger contracts of the CMPSC263 Solidity examples

    A shallow embedding of the token and withdrawal contracts of the
    repository: [Coin] (Simple_Coin.sol), [SimpleCoin], [TokenBase],
    [TokenPool] with [AdminExtension], [SimpleStorage] and
    [ConstructorAndFallback] (ConstructorAndFallback.sol),
    [SecurityPitfalls], and [MyToken.integerToString].

    Conventions of the embedding:
    - [uint256] values and addresses are integers of [Z]; Solidity 0.8
      checked arithmetic is written out ([add256], [sub256], [mul256]
      revert with [Panic 17], the compiler's 0x11 code);
    - a [mapping(address => uint256)] is a [gmap Z Z] read with default 0;
    - a contract function is a computation in the monad [M]: it threads
      the contract's storage, may revert with an [error], and records the
      calls that foreign code makes back into the contract;
    - a revert discards the storage of the reverted frame: [commit] keeps
      the storage the frame started with;
    - the code a contract pays is a [recipient]: it may call back as
      itself or through other accounts, and ether may reach a contract
      without a call to it. *)

From stdpp Require Import gmap strings list.
From Stdlib Require Import ZArith Lia.
Open Scope Z_scope.

Abbreviation address := Z (only parsing).
Abbreviation uint256 := Z (only parsing).

(** ** Revert data and results *)

Inductive error :=
  | Error (reason : string)                          (* require(cond, reason) *)
  | Panic (code : Z)                                 (* checked arithmetic *)
  | InsufficientBalance (requested available : Z).   (* Coin's custom error *)

Inductive result (A : Type) :=
  | Ok (a : A)
  | Err (e : error).
Arguments Ok {A} a.
Arguments Err {A} e.

Definition UINT256_MAX : Z := 2 ^ 256 - 1.

(** ** The execution monad: storage, revert, call record *)

Section Exec.
Context {S W : Type}.

Definition M (A : Type) : Type := S -> list W * result (A * S).

Definition ret {A} (a : A) : M A := fun s => ([], Ok (a, s)).

Definition bind {A B} (m : M A) (f : A -> M B) : M B := fun s =>
  match m s with
  | (t, Ok (a, s')) => let (t', r) := f a s' in (t ++ t', r)
  | (t, Err e) => (t, Err e)
  end.

Definition revert {A} (e : error) : M A := fun _ => ([], Err e).

Definition require (cond : bool) (reason : string) : M unit :=
  if cond then ret tt else revert (Error reason).

Definition gets {A} (f : S -> A) : M A := fun s => ([], Ok (f s, s)).

Definition modify (f : S -> S) : M unit := fun s => ([], Ok (tt, f s)).

Definition tell (w : W) : M unit := fun s => ([w], Ok (tt, s)).

(** A low-level call: the callee's revert is caught, its storage
    changes are dropped, and the caller learns the revert data. *)
Definition attempt {A} (m : M A) : M (option error) := fun s =>
  match m s with
  | (t, Ok (_, s')) => (t, Ok (None, s'))
  | (t, Err e) => (t, Ok (Some e, s))
  end.

(** Outcome of a message call, and the storage it leaves behind. *)
Definition outcome {A} (m : M A) (s : S) : result (A * S) := snd (m s).

Definition calls {A} (m : M A) (s : S) : list W := fst (m s).

Definition commit {A} (m : M A) (s : S) : S :=
  match snd (m s) with
  | Ok (_, s') => s'
  | Err _ => s
  end.

(** Solidity 0.8 checked arithmetic on uint256. *)
Definition add256 (a b : Z) : M Z :=
  if a + b <=? UINT256_MAX then ret (a + b) else revert (Panic 17).

Definition sub256 (a b : Z) : M Z :=
  if b <=? a then ret (a - b) else revert (Panic 17).

Definition mul256 (a b : Z) : M Z :=
  if a * b <=? UINT256_MAX then ret (a * b) else revert (Panic 17).
End Exec.
Arguments M : clear implicits.

Notation "x <- m ;; k" := (bind m (fun x => k))
  (at level 100, m at next level, right associativity).
Notation "m ;; k" := (bind m (fun _ => k))
  (at level 100, right associativity).

(** Sum of all entries of a balance mapping. *)
Definition sum_balances (m : gmap Z Z) : Z :=
  map_fold (fun _ v acc => v + acc) 0 m.

(** ** Coin (CoreContracts/Simple_Coin.sol) *)

Module Coin.
Inductive event := Sent (from to : address) (amount : uint256).

Record State := mkState {
  minter : address;
  balances : gmap Z Z;
  log : list event
}.

Abbreviation M := (M State Empty_set).

Definition balance (s : State) (a : address) : uint256 :=
  default 0 (balances s !! a).

Definition set_balance (a : address) (v : uint256) (s : State) : State :=
  mkState (minter s) (<[a := v]> (balances s)) (log s).

Definition emit (e : event) : M unit :=
  modify (fun s => mkState (minter s) (balances s) (log s ++ [e])).

(** [balances[a] += v] and [balances[a] -= v]. *)
Definition credit (a : address) (v : uint256) : M unit :=
  b <- gets (fun s => balance s a) ;;
  b' <- add256 b v ;;
  modify (set_balance a b').

Definition debit (a : address) (v : uint256) : M unit :=
  b <- gets (fun s => balance s a) ;;
  b' <- sub256 b v ;;
  modify (set_balance a b').

Definition constructor (sender : address) : State :=
  mkState sender ∅ [].

Definition mint (sender receiver : address) (amount : uint256) : M unit :=
  m <- gets minter ;;
  require (sender =? m) "Only the minter can create new coins" ;;
  credit receiver amount.

Definition send (sender receiver : address) (amount : uint256) : M unit :=
  available <- gets (fun s => balance s sender) ;;
  if amount >? available
  then revert (InsufficientBalance amount available)
  else
    debit sender amount ;;
    credit receiver amount ;;
    emit (Sent sender receiver amount).

(** A message call to the contract; amounts are ABI-encoded unsigned
  integers. *)
Inductive call :=
  | mint_ (receiver : address) (amount : N)
  | send_ (receiver : address) (amount : N).

Definition dispatch (sender : address) (c : call) : M unit :=
  match c with
  | mint_ receiver amount => mint sender receiver (Z.of_N amount)
  | send_ receiver amount => send sender receiver (Z.of_N amount)
  end.

(** Storage between transactions; a reverted call changes nothing. *)
Inductive reachable : State -> Prop :=
  | reach_deploy sender : reachable (constructor sender)
  | reach_call s sender c : reachable s -> reachable (commit (dispatch sender c) s).

(** Every stored balance is a uint256. *)
Definition typed (s : State) : Prop :=
  forall a, 0 <= balance s a <= UINT256_MAX.
End Coin.

(** ** SimpleCoin (ConstructorAndFallback.sol) *)

Module SimpleCoin.
Inductive event :=
  | Transfer (_from _to : address) (_value : uint256)
  | Mint (_to : address) (_value : uint256).

Record State := mkState {
  owner : address;
  name : string;
  symbol : string;
  decimals : Z;
  balanceOf : gmap Z Z;
  log : list event
}.

Abbreviation M := (M State Empty_set).

Definition balance (s : State) (a : address) : uint256 :=
  default 0 (balanceOf s !! a).

Definition set_balance (a : address) (v : uint256) (s : State) : State :=
  mkState (owner s) (name s) (symbol s) (decimals s)
          (<[a := v]> (balanceOf s)) (log s).

Definition emit (e : event) : M unit :=
  modify (fun s => mkState (owner s) (name s) (symbol s) (decimals s)
                           (balanceOf s) (log s ++ [e])).

Definition credit (a : address) (v : uint256) : M unit :=
  b <- gets (fun s => balance s a) ;;
  b' <- add256 b v ;;
  modify (set_balance a b').

Definition debit (a : address) (v : uint256) : M unit :=
  b <- gets (fun s => balance s a) ;;
  b' <- sub256 b v ;;
  modify (set_balance a b').

Definition constructor (sender : address) (_initialSupply : uint256)
    (_name _symbol : string) : M unit :=
  modify (fun s => mkState sender _name _symbol 18 (balanceOf s) (log s)) ;;
  d <- gets decimals ;;
  supply <- mul256 _initialSupply (10 ^ d) ;;
  modify (set_balance sender supply) ;;
  minted <- gets (fun s => balance s sender) ;;
  emit (Mint sender minted).

(** Zeroed storage, on which the constructor runs. *)
Definition blank : State := mkState 0 "" "" 0 ∅ [].

Definition transfer (sender _to : address) (_value : uint256) : M bool :=
  b <- gets (fun s => balance s sender) ;;
  require (_value <=? b) "Insufficient balance" ;;
  t <- gets (fun s => balance s _to) ;;
  t' <- add256 t _value ;;
  require (t <=? t') "Overflow detected" ;;
  debit sender _value ;;
  credit _to _value ;;
  emit (Transfer sender _to _value) ;;
  ret true.

Definition mint (sender _to : address) (_value : uint256) : M bool :=
  o <- gets owner ;;
  require (sender =? o) "Only owner can mint" ;;
  t <- gets (fun s => balance s _to) ;;
  t' <- add256 t _value ;;
  require (t <=? t') "Overflow detected" ;;
  credit _to _value ;;
  emit (Mint _to _value) ;;
  emit (Transfer 0 _to _value) ;;
  ret true.

Definition totalSupply (s : State) : uint256 := balance s (owner s).
End SimpleCoin.

(** ** TokenBase (ConstructorAndFallback.sol) *)

Module TokenBase.
Inductive event := Transfer (from to : address) (value : uint256).

Record State := mkState {
  _balances : gmap Z Z;
  _totalSupply : uint256;
  log : list event
}.

Abbreviation M := (M State Empty_set).

Definition balance (s : State) (a : address) : uint256 :=
  default 0 (_balances s !! a).

Definition set_balance (a : address) (v : uint256) (s : State) : State :=
  mkState (<[a := v]> (_balances s)) (_totalSupply s) (log s).

Definition set_totalSupply (v : uint256) (s : State) : State :=
  mkState (_balances s) v (log s).

Definition emit (e : event) : M unit :=
  modify (fun s => mkState (_balances s) (_totalSupply s) (log s ++ [e])).

Definition credit (a : address) (v : uint256) : M unit :=
  b <- gets (fun s => balance s a) ;;
  b' <- add256 b v ;;
  modify (set_balance a b').

Definition debit (a : address) (v : uint256) : M unit :=
  b <- gets (fun s => balance s a) ;;
  b' <- sub256 b v ;;
  modify (set_balance a b').

Definition _transfer (from to : address) (amount : uint256) : M bool :=
  require (negb (from =? 0)) "Transfer from zero address" ;;
  require (negb (to =? 0)) "Transfer to zero address" ;;
  b <- gets (fun s => balance s from) ;;
  require (amount <=? b) "Insufficient balance" ;;
  debit from amount ;;
  credit to amount ;;
  emit (Transfer from to amount) ;;
  ret true.

Definition _mint (account : address) (amount : uint256) : M unit :=
  require (negb (account =? 0)) "Mint to zero address" ;;
  ts <- gets _totalSupply ;;
  ts' <- add256 ts amount ;;
  modify (set_totalSupply ts') ;;
  credit account amount ;;
  emit (Transfer 0 account amount).

Definition _burn (account : address) (amount : uint256) : M unit :=
  require (negb (account =? 0)) "Burn from zero address" ;;
  b <- gets (fun s => balance s account) ;;
  require (amount <=? b) "Burn amount exceeds balance" ;;
  debit account amount ;;
  ts <- gets _totalSupply ;;
  ts' <- sub256 ts amount ;;
  modify (set_totalSupply ts') ;;
  emit (Transfer account 0 amount).

Definition _isValidAmount (value : uint256) : bool := value >? 0.

(** TokenPool's views. *)
Definition balanceOf (s : State) (account : address) : uint256 :=
  balance s account.

Definition totalSupply (s : State) : uint256 := _totalSupply s.

(** Zeroed storage, before any constructor of a derived contract. *)
Definition fresh : State := mkState ∅ 0 [].

(** The ledger operations every derived contract (TokenPool,
    AdminExtension) is built from; amounts are ABI-encoded unsigned
    integers. *)
Inductive op :=
  | Mint (account : address) (amount : N)
  | Transfer_ (from to : address) (amount : N)
  | Burn (account : address) (amount : N).

Definition step (o : op) : M unit :=
  match o with
  | Mint account amount => _mint account (Z.of_N amount)
  | Transfer_ from to amount => _transfer from to (Z.of_N amount) ;; ret tt
  | Burn account amount => _burn account (Z.of_N amount)
  end.

(** States after any sequence of calls; a reverted call leaves the
    storage as it was. *)
Inductive reachable : State -> Prop :=
  | reach_fresh : reachable fresh
  | reach_step o s : reachable s -> reachable (commit (step o) s).

(** The ledger invariant: balances are non-negative and the recorded
  supply is their sum. *)
Definition ledger_inv (s : State) : Prop :=
  (forall a, 0 <= balance s a) /\ _totalSupply s = sum_balances (_balances s).
End TokenBase.


(** ** SecurityPitfalls *)

Module SecurityPitfalls.
Inductive event :=
  | Deposit (user : address) (amount : uint256)
  | Withdrawal (user : address) (amount : uint256).

(** Storage of the contract, with [this_balance] the ether held at
    [address(this)] (what [getContractBalance] returns). *)
Record State := mkState {
  owner : address;
  balances : gmap Z Z;
  locked : bool;
  this_balance : Z;
  log : list event
}.

(** A message call to one of the state-changing public functions. The
    amounts are ABI-encoded unsigned integers. *)
Inductive call :=
  | deposit_ (value : N)
  | unsafeWithdraw_ (_amount : N)
  | safeWithdraw_ (_amount : N)
  | unsafeChangeOwner_ (_newOwner : address)
  | safeChangeOwner_ (_newOwner : address).

(** A call made back into the contract, and how it ended. *)
Abbreviation entry := (call * option error)%type.

Abbreviation M := (M State entry).

(** What a foreign contract can read: the public getters. *)
Record View := mkView {
  view_owner : address;
  view_balances : address -> uint256;
  view_contractBalance : Z
}.

(** The code that runs at the account receiving ether from
    [msg.sender.call{value: _amount}("")]. It may read the contract, call
    back into it (the ether such a nested call pays out is handled by
    [inner]), look at how the call ended, and finally return or revert.
    It may also have another contract make the call ([CallAs]: the
    contract then sees that contract's address [other] as [msg.sender],
    and pays it, running [inner] there), and it may destroy a contract
    with this one as the beneficiary ([SelfDestruct]: the ether arrives
    without any code of this contract running). *)
Inductive recipient :=
  | Return
  | Revert
  | Read (k : View -> recipient)
  | Call (c : call) (inner : recipient) (k : option error -> recipient)
  | CallAs (other : address) (c : call) (inner : recipient)
           (k : option error -> recipient)
  | SelfDestruct (value : N) (k : recipient).

Definition balance (s : State) (a : address) : uint256 :=
  default 0 (balances s !! a).

Definition view (s : State) : View :=
  mkView (owner s) (balance s) (this_balance s).

Definition set_owner (o : address) (s : State) : State :=
  mkState o (balances s) (locked s) (this_balance s) (log s).

Definition set_balance (a : address) (v : uint256) (s : State) : State :=
  mkState (owner s) (<[a := v]> (balances s)) (locked s) (this_balance s) (log s).

Definition set_locked (b : bool) (s : State) : State :=
  mkState (owner s) (balances s) b (this_balance s) (log s).

Definition set_this_balance (v : Z) (s : State) : State :=
  mkState (owner s) (balances s) (locked s) v (log s).

Definition emit (e : event) : M unit :=
  modify (fun s => mkState (owner s) (balances s) (locked s) (this_balance s)
                           (log s ++ [e])).

Definition credit (a : address) (v : uint256) : M unit :=
  b <- gets (fun s => balance s a) ;;
  b' <- add256 b v ;;
  modify (set_balance a b').

Definition debit (a : address) (v : uint256) : M unit :=
  b <- gets (fun s => balance s a) ;;
  b' <- sub256 b v ;;
  modify (set_balance a b').

Definition constructor (sender : address) : State :=
  mkState sender ∅ false 0 [].

(** modifier noReentrancy *)
Definition noReentrancy (body : M unit) : M unit :=
  l <- gets locked ;;
  require (negb l) "Reentrant call detected" ;;
  modify (set_locked true) ;;
  body ;;
  modify (set_locked false).

(** modifier onlyOwner *)
Definition onlyOwner (sender : address) (body : M unit) : M unit :=
  o <- gets owner ;;
  require (sender =? o) "Not the owner" ;;
  body.

(** [msg.sender.call{value: _amount}("")]: fails without running any code
    when the contract holds less than [_amount]; otherwise the ether
    leaves the contract and the recipient's code runs. If that code
    reverts, the transfer and everything the code did are undone and the
    call returns [false]. *)
Definition call_value (code : M unit) (_amount : uint256) : M bool :=
  have <- gets this_balance ;;
  if have <? _amount then ret false
  else
    r <- attempt (modify (set_this_balance (have - _amount)) ;; code) ;;
    ret (match r with None => true | Some _ => false end).

(** A payable call brings [msg.value] into the contract. *)
Definition deposit (sender : address) (value : uint256) : M unit :=
  have <- gets this_balance ;;
  modify (set_this_balance (have + value)) ;;
  credit sender value ;;
  emit (Deposit sender value).

Definition unsafeWithdraw (code : M unit) (sender : address)
    (_amount : uint256) : M unit :=
  b <- gets (fun s => balance s sender) ;;
  require (_amount <=? b) "Insufficient balance" ;;
  success <- call_value code _amount ;;
  require success "Transfer failed" ;;
  debit sender _amount ;;
  emit (Withdrawal sender _amount).

Definition safeWithdraw (code : M unit) (sender : address)
    (_amount : uint256) : M unit :=
  noReentrancy (
    b <- gets (fun s => balance s sender) ;;
    require (_amount <=? b) "Insufficient balance" ;;
    debit sender _amount ;;
    success <- call_value code _amount ;;
    require success "Transfer failed" ;;
    emit (Withdrawal sender _amount)).

Definition unsafeChangeOwner (sender _newOwner : address) : M unit :=
  modify (set_owner _newOwner).

Definition safeChangeOwner (sender _newOwner : address) : M unit :=
  onlyOwner sender (modify (set_owner _newOwner)).

Definition getContractBalance (s : State) : Z := this_balance s.

(** The two pure adders. Under pragma ^0.8.0 the addition itself is
    checked in both. *)
Definition unsafeAdd (a b : uint256) : M uint256 :=
  c <- add256 a b ;;
  ret c.

Definition safeAdd (a b : uint256) : M uint256 :=
  c <- add256 a b ;;
  require (a <=? c) "Addition overflow" ;;
  ret c.

(** receive() external payable *)
Definition receive (sender : address) (value : uint256) : M unit :=
  deposit sender value.

(** A message call from [sender], whose own code is [code]. *)
Definition dispatch (code : M unit) (sender : address) (c : call) : M unit :=
  match c with
  | deposit_ value => deposit sender (Z.of_N value)
  | unsafeWithdraw_ _amount => unsafeWithdraw code sender (Z.of_N _amount)
  | safeWithdraw_ _amount => safeWithdraw code sender (Z.of_N _amount)
  | unsafeChangeOwner_ _newOwner => unsafeChangeOwner sender _newOwner
  | safeChangeOwner_ _newOwner => safeChangeOwner sender _newOwner
  end.

(** Ether that reaches the contract without a call to it. *)
Definition forced (value : uint256) : M unit :=
  have <- gets this_balance ;;
  modify (set_this_balance (have + value)).

(** Running the recipient's code at account [self]. A call it makes into
    the contract itself has [msg.sender = self]; a call it has the
    contract at [other] make has [msg.sender = other], and what the
    contract pays in that call goes to the code at [other]. Every call is
    recorded with its result. *)
Fixpoint run (self : address) (r : recipient) : M unit :=
  match r with
  | Return => ret tt
  | Revert => revert (Error "")
  | Read k => v <- gets view ;; run self (k v)
  | Call c inner k =>
      e <- attempt (dispatch (run self inner) self c) ;;
      tell (c, e) ;;
      run self (k e)
  | CallAs other c inner k =>
      e <- attempt (dispatch (run other inner) other c) ;;
      tell (c, e) ;;
      run self (k e)
  | SelfDestruct value k =>
      forced (Z.of_N value) ;;
      run self k
  end.

(** The recipient's code never has the account [a] call the contract. *)
Fixpoint avoids (a : address) (r : recipient) : Prop :=
  match r with
  | Return | Revert => True
  | Read k => forall v, avoids a (k v)
  | Call c inner k => avoids a inner /\ forall e, avoids a (k e)
  | CallAs other c inner k =>
      other <> a /\ avoids a inner /\ forall e, avoids a (k e)
  | SelfDestruct _ k => avoids a k
  end.


(** The storage at the moment [safeWithdraw] hands control to the
    recipient: lock taken, balance decremented, ether sent. *)
Definition at_interaction (sender : address) (_amount : uint256) (s : State) : State :=
  set_this_balance (this_balance s - _amount)
    (set_balance sender (balance s sender - _amount) (set_locked true s)).

(** The storage [safeWithdraw] leaves when the recipient returned in
    storage [s1]: the event is logged and the lock released. *)
Definition completed (sender : address) (_amount : uint256) (s1 : State) : State :=
  mkState (owner s1) (balances s1) false (this_balance s1)
          (log s1 ++ [Withdrawal sender _amount]).

(** The storage at the moment [unsafeWithdraw] hands control to the
    recipient: only the ether has left. *)
Definition at_unsafe_interaction (_amount : uint256) (s : State) : State :=
  set_this_balance (this_balance s - _amount) s.

(** The ether the contract holds beyond what it has recorded as owed. *)
Definition surplus (s : State) : Z :=
  this_balance s - sum_balances (balances s).

(** What every successful call, from any account and with any code,
    leaves as it found it: the lock; the surplus, which may only grow;
    and the sign of the balances. *)
Definition stable (s s' : State) : Prop :=
  locked s' = locked s /\
  surplus s <= surplus s' /\
  ((forall a, 0 <= balance s a) -> forall a, 0 <= balance s' a).

(** The contract holds at least the ether it owes, and owes no one a
    negative amount. *)
Definition solvent (s : State) : Prop :=
  sum_balances (balances s) <= this_balance s /\
  forall a, 0 <= balance s a.

(** Storage between transactions: deployment, then any message calls
    from any accounts running any code, and ether that arrives without a
    call (a destroyed contract's or a block reward's); a reverted call
    changes nothing. *)
Inductive reachable : State -> Prop :=
  | reach_deploy sender : reachable (constructor sender)
  | reach_call s sender r c :
      reachable s -> reachable (commit (dispatch (run sender r) sender c) s)
  | reach_forced s (value : N) :
      reachable s -> reachable (commit (forced (Z.of_N value)) s).

(** A recorded call is a re-entry into [safeWithdraw] that was refused. *)
Definition refused (e : entry) : Prop :=
  forall a, fst e = safeWithdraw_ a ->
            snd e = Some (Error "Reentrant call detected").
End SecurityPitfalls.


(** ** TokenPool and AdminExtension (ConstructorAndFallback.sol) *)

(** The deployed contract: AdminExtension, with the storage and the
    functions it inherits from TokenPool and, through it, TokenBase. *)
Module AdminExtension.
Record State := mkState {
  base : TokenBase.State;          (* _balances, _totalSupply, Transfer events *)
  name : string;
  symbol : string;
  owner : address;
  buyRate : uint256;
  sellRate : uint256;
  admins : gmap Z bool;
  this_balance : Z                 (* address(this).balance *)
}.

Abbreviation M := (M State Empty_set).

Definition set_base (b : TokenBase.State) (s : State) : State :=
  mkState b (name s) (symbol s) (owner s) (buyRate s) (sellRate s) (admins s)
          (this_balance s).

Definition set_rates (b r : uint256) (s : State) : State :=
  mkState (base s) (name s) (symbol s) (owner s) b r (admins s) (this_balance s).

Definition set_admin (a : address) (s : State) : State :=
  mkState (base s) (name s) (symbol s) (owner s) (buyRate s) (sellRate s)
          (<[a := true]> (admins s)) (this_balance s).

Definition set_this_balance (v : Z) (s : State) : State :=
  mkState (base s) (name s) (symbol s) (owner s) (buyRate s) (sellRate s)
          (admins s) v.

(** An inherited internal function of TokenBase, run on the inherited
    part of the storage. *)
Definition lift {A} (m : TokenBase.M A) : M A := fun s =>
  match m (base s) with
  | (_, Ok (a, b)) => ([], Ok (a, set_base b s))
  | (_, Err e) => ([], Err e)
  end.

Definition isAdmin (s : State) (a : address) : bool :=
  default false (admins s !! a).

Definition balanceOf (s : State) (account : address) : uint256 :=
  TokenBase.balance (base s) account.

Definition totalSupply (s : State) : uint256 := TokenBase._totalSupply (base s).

(** Checked division: dividing by zero panics with code 0x12. *)
Definition div256 (a b : uint256) : M uint256 :=
  if b =? 0 then revert (Panic 18) else ret (a / b).

(** Zeroed storage, on which the constructors run. *)
Definition blank : State := mkState TokenBase.fresh "" "" 0 0 0 ∅ 0.

(** TokenPool's constructor, then AdminExtension's. *)
Definition constructor (sender : address) (_name _symbol : string)
    (_initialSupply _buyRate _sellRate : uint256) : M unit :=
  modify (fun s => mkState (base s) _name _symbol sender _buyRate _sellRate
                           (admins s) (this_balance s)) ;;
  lift (TokenBase._mint sender _initialSupply) ;;
  modify (set_admin sender).

Definition transfer (sender to : address) (amount : uint256) : M bool :=
  lift (TokenBase._transfer sender to amount).

(** A payable call brings [msg.value] into the contract. *)
Definition buyTokens (sender : address) (value : uint256) : M unit :=
  have <- gets this_balance ;;
  modify (set_this_balance (have + value)) ;;
  require (value >? 0) "Must send ETH to buy tokens" ;;
  rate <- gets buyRate ;;
  tokenAmount <- mul256 value rate ;;
  require (TokenBase._isValidAmount tokenAmount) "Invalid amount" ;;
  lift (TokenBase._mint sender tokenAmount).

(** [payable(to).call{value: amount}("")], as in SecurityPitfalls. *)
Definition call_value (code : M unit) (amount : uint256) : M bool :=
  have <- gets this_balance ;;
  if have <? amount then ret false
  else
    r <- attempt (modify (set_this_balance (have - amount)) ;; code) ;;
    ret (match r with None => true | Some _ => false end).

Definition sellTokens (code : M unit) (sender : address)
    (tokenAmount : uint256) : M unit :=
  require (TokenBase._isValidAmount tokenAmount) "Amount must be greater than 0" ;;
  b <- gets (fun s => balanceOf s sender) ;;
  require (tokenAmount <=? b) "Insufficient balance" ;;
  rate <- gets sellRate ;;
  ethAmount <- div256 tokenAmount rate ;;
  have <- gets this_balance ;;
  require (ethAmount <=? have) "Insufficient liquidity" ;;
  lift (TokenBase._burn sender tokenAmount) ;;
  success <- call_value code ethAmount ;;
  require success "ETH transfer failed".

Definition updateRates (sender : address) (newBuyRate newSellRate : uint256) : M unit :=
  o <- gets owner ;;
  require (sender =? o) "Only owner can update rates" ;;
  modify (set_rates newBuyRate newSellRate).

(** receive() external payable {} *)
Definition receive (sender : address) (value : uint256) : M unit :=
  have <- gets this_balance ;;
  modify (set_this_balance (have + value)).

(** modifier onlyAdmin *)
Definition onlyAdmin (sender : address) (body : M unit) : M unit :=
  a <- gets (fun s => isAdmin s sender) ;;
  require a "Admin access required" ;;
  body.

Definition addAdmin (sender newAdmin : address) : M unit :=
  onlyAdmin sender (modify (set_admin newAdmin)).

Definition adminMint (sender to : address) (amount : uint256) : M unit :=
  onlyAdmin sender (lift (TokenBase._mint to amount)).

Definition adminBurn (sender from : address) (amount : uint256) : M unit :=
  onlyAdmin sender (lift (TokenBase._burn from amount)).

Definition emergencyWithdraw (code : M unit) (sender : address)
    (amount : uint256) : M unit :=
  onlyAdmin sender (
    have <- gets this_balance ;;
    require (amount <=? have) "Insufficient contract balance" ;;
    success <- call_value code amount ;;
    require success "ETH transfer failed").

(** A message call to one of the state-changing functions; amounts are
    ABI-encoded unsigned integers. *)
Inductive call :=
  | transfer_ (to : address) (amount : N)
  | buyTokens_ (value : N)
  | sellTokens_ (tokenAmount : N)
  | updateRates_ (newBuyRate newSellRate : N)
  | receive_ (value : N)
  | addAdmin_ (newAdmin : address)
  | adminMint_ (to : address) (amount : N)
  | adminBurn_ (from : address) (amount : N)
  | emergencyWithdraw_ (amount : N).

Definition dispatch (code : M unit) (sender : address) (c : call) : M unit :=
  match c with
  | transfer_ to amount => transfer sender to (Z.of_N amount) ;; ret tt
  | buyTokens_ value => buyTokens sender (Z.of_N value)
  | sellTokens_ tokenAmount => sellTokens code sender (Z.of_N tokenAmount)
  | updateRates_ b r => updateRates sender (Z.of_N b) (Z.of_N r)
  | receive_ value => receive sender (Z.of_N value)
  | addAdmin_ newAdmin => addAdmin sender newAdmin
  | adminMint_ to amount => adminMint sender to (Z.of_N amount)
  | adminBurn_ from amount => adminBurn sender from (Z.of_N amount)
  | emergencyWithdraw_ amount => emergencyWithdraw code sender (Z.of_N amount)
  end.

(** What a foreign contract can read. *)
Record View := mkView {
  view_balanceOf : address -> uint256;
  view_totalSupply : uint256;
  view_owner : address;
  view_buyRate : uint256;
  view_sellRate : uint256;
  view_admins : address -> bool;
  view_contractBalance : Z
}.

Definition view (s : State) : View :=
  mkView (balanceOf s) (totalSupply s) (owner s) (buyRate s) (sellRate s)
         (isAdmin s) (this_balance s).

(** The code at an account that is paid by [sellTokens] or
    [emergencyWithdraw]; it may call back into any function, have the
    contract at [other] call ([CallAs], with [msg.sender = other]), and
    destroy a contract with this one as the beneficiary
    ([SelfDestruct]). *)
Inductive recipient :=
  | Return
  | Revert
  | Read (k : View -> recipient)
  | Call (c : call) (inner : recipient) (k : option error -> recipient)
  | CallAs (other : address) (c : call) (inner : recipient)
           (k : option error -> recipient)
  | SelfDestruct (value : N) (k : recipient).

(** Ether that reaches the contract without a call to it. *)
Definition forced (value : uint256) : M unit :=
  have <- gets this_balance ;;
  modify (set_this_balance (have + value)).

Fixpoint run (self : address) (r : recipient) : M unit :=
  match r with
  | Return => ret tt
  | Revert => revert (Error "")
  | Read k => v <- gets view ;; run self (k v)
  | Call c inner k =>
      e <- attempt (dispatch (run self inner) self c) ;;
      run self (k e)
  | CallAs other c inner k =>
      e <- attempt (dispatch (run other inner) other c) ;;
      run self (k e)
  | SelfDestruct value k =>
      forced (Z.of_N value) ;;
      run self k
  end.

(** Storage between transactions: a successful deployment, then any
    message calls, and ether that arrives without a call; a reverted call
    changes nothing. *)
Inductive reachable : State -> Prop :=
  | reach_deploy sender _name _symbol (supply b r : N) s :
      outcome (constructor sender _name _symbol (Z.of_N supply) (Z.of_N b) (Z.of_N r))
              blank = Ok (tt, s) ->
      reachable s
  | reach_call s sender r c :
      reachable s -> reachable (commit (dispatch (run sender r) sender c) s)
  | reach_forced s (value : N) :
      reachable s -> reachable (commit (forced (Z.of_N value)) s).

(** What every successful call keeps: the token ledger's invariant and the
    emptiness of the zero address, the owner, the admins already
    appointed, and a non-negative ether balance. *)
Definition steady (s s' : State) : Prop :=
  (TokenBase.ledger_inv (base s) -> TokenBase.ledger_inv (base s')) /\
  (TokenBase.balance (base s) 0 = 0 -> TokenBase.balance (base s') 0 = 0) /\
  owner s' = owner s /\
  (forall a, isAdmin s a = true -> isAdmin s' a = true) /\
  (0 <= this_balance s -> 0 <= this_balance s').
End AdminExtension.


(** ** SimpleStorage (the variant with events, ConstructorAndFallback.sol) *)

Module SimpleStorage.
Inductive event := DataStored (_from : address) (_value : uint256).

Record State := mkState {
  storedData : uint256;
  log : list event
}.

Abbreviation M := (M State Empty_set).

Definition emit (e : event) : M unit :=
  modify (fun s => mkState (storedData s) (log s ++ [e])).

Definition set_storedData (v : uint256) (s : State) : State :=
  mkState v (log s).

Definition constructor : State := mkState 0 [].

Definition set (sender : address) (_value : uint256) : M unit :=
  modify (set_storedData _value) ;;
  emit (DataStored sender _value).

Definition get (s : State) : uint256 := storedData s.

Definition increment (sender : address) : M unit :=
  d <- gets storedData ;;
  d' <- add256 d 1 ;;
  modify (set_storedData d') ;;
  now <- gets storedData ;;
  emit (DataStored sender now).

Definition decrement (sender : address) : M unit :=
  d <- gets storedData ;;
  require (d >? 0) "Cannot decrement below zero" ;;
  d' <- sub256 d 1 ;;
  modify (set_storedData d') ;;
  now <- gets storedData ;;
  emit (DataStored sender now).

(** A message call; the argument of [set] is an ABI-encoded unsigned
    integer. *)
Inductive call :=
  | set_ (_value : N)
  | increment_
  | decrement_.

Definition dispatch (sender : address) (c : call) : M unit :=
  match c with
  | set_ _value => set sender (Z.of_N _value)
  | increment_ => increment sender
  | decrement_ => decrement sender
  end.

Inductive reachable : State -> Prop :=
  | reach_deploy : reachable constructor
  | reach_call s sender c : reachable s -> reachable (commit (dispatch sender c) s).

(** The value carried by the most recent event, if any. *)
Definition last_stored (s : State) : option uint256 :=
  match last (log s) with
  | Some (DataStored _ v) => Some v
  | None => None
  end.
End SimpleStorage.


(** ** ConstructorAndFallback (ConstructorAndFallback.sol) *)

Module ConstructorAndFallback.
Inductive event :=
  | FallbackCalled (sender : address) (value : uint256)
  | ReceiveCalled (sender : address) (value : uint256).

Record State := mkState {
  owner : address;
  creationTime : uint256;
  lastCallValue : uint256;
  fallbackCallCount : uint256;
  lastFunctionCalled : string;
  this_balance : Z;                (* address(this).balance *)
  log : list event
}.

Abbreviation M := (M State Empty_set).

Definition set_lastCallValue (v : uint256) (s : State) : State :=
  mkState (owner s) (creationTime s) v (fallbackCallCount s) (lastFunctionCalled s)
          (this_balance s) (log s).

Definition set_fallbackCallCount (v : uint256) (s : State) : State :=
  mkState (owner s) (creationTime s) (lastCallValue s) v (lastFunctionCalled s)
          (this_balance s) (log s).

Definition set_lastFunctionCalled (f : string) (s : State) : State :=
  mkState (owner s) (creationTime s) (lastCallValue s) (fallbackCallCount s) f
          (this_balance s) (log s).

Definition set_this_balance (v : Z) (s : State) : State :=
  mkState (owner s) (creationTime s) (lastCallValue s) (fallbackCallCount s)
          (lastFunctionCalled s) v (log s).

Definition emit (e : event) : M unit :=
  modify (fun s => mkState (owner s) (creationTime s) (lastCallValue s)
                           (fallbackCallCount s) (lastFunctionCalled s)
                           (this_balance s) (log s ++ [e])).

(** The constructor is not payable; [timestamp] is [block.timestamp]. *)
Definition constructor (sender : address) (timestamp : uint256) : State :=
  mkState sender timestamp 0 0 "constructor" 0 [].

Definition doSomething : M unit :=
  modify (set_lastFunctionCalled "doSomething").

(** A payable call brings [msg.value] into the contract. *)
Definition fallback (sender : address) (value : uint256) : M unit :=
  have <- gets this_balance ;;
  modify (set_this_balance (have + value)) ;;
  c <- gets fallbackCallCount ;;
  c' <- add256 c 1 ;;
  modify (set_fallbackCallCount c') ;;
  modify (set_lastCallValue value) ;;
  modify (set_lastFunctionCalled "fallback") ;;
  emit (FallbackCalled sender value).

Definition receive (sender : address) (value : uint256) : M unit :=
  have <- gets this_balance ;;
  modify (set_this_balance (have + value)) ;;
  modify (set_lastCallValue value) ;;
  modify (set_lastFunctionCalled "receive") ;;
  emit (ReceiveCalled sender value).

Definition getBalance (s : State) : uint256 := this_balance s.

(** [payable(owner).call{value: amount}("")], as in SecurityPitfalls. *)
Definition call_value (code : M unit) (amount : uint256) : M bool :=
  have <- gets this_balance ;;
  if have <? amount then ret false
  else
    r <- attempt (modify (set_this_balance (have - amount)) ;; code) ;;
    ret (match r with None => true | Some _ => false end).

(** [code] is the code at the owner's address. *)
Definition withdraw (code : M unit) (sender : address) : M unit :=
  o <- gets owner ;;
  require (sender =? o) "Only owner can withdraw" ;;
  amount <- gets this_balance ;;
  success <- call_value code amount ;;
  require success "Withdrawal failed".

(** A message call: to a function, with calldata that matches none
    ([fallback_]), or with empty calldata ([receive_]). *)
Inductive call :=
  | doSomething_
  | fallback_ (value : N)
  | receive_ (value : N)
  | withdraw_.

Definition dispatch (code : M unit) (sender : address) (c : call) : M unit :=
  match c with
  | doSomething_ => doSomething
  | fallback_ value => fallback sender (Z.of_N value)
  | receive_ value => receive sender (Z.of_N value)
  | withdraw_ => withdraw code sender
  end.

(** What a foreign contract can read: the public getters. *)
Record View := mkView {
  view_owner : address;
  view_creationTime : uint256;
  view_lastCallValue : uint256;
  view_fallbackCallCount : uint256;
  view_lastFunctionCalled : string;
  view_getBalance : uint256
}.

Definition view (s : State) : View :=
  mkView (owner s) (creationTime s) (lastCallValue s) (fallbackCallCount s)
         (lastFunctionCalled s) (getBalance s).

(** The code at the owner's address, run when [withdraw] pays it; it may
    call back into any function, have the contract at [other] call
    ([CallAs], with [msg.sender = other]), and destroy a contract with
    this one as the beneficiary ([SelfDestruct]). *)
Inductive recipient :=
  | Return
  | Revert
  | Read (k : View -> recipient)
  | Call (c : call) (inner : recipient) (k : option error -> recipient)
  | CallAs (other : address) (c : call) (inner : recipient)
           (k : option error -> recipient)
  | SelfDestruct (value : N) (k : recipient).

(** Ether that reaches the contract without a call to it. *)
Definition forced (value : uint256) : M unit :=
  have <- gets this_balance ;;
  modify (set_this_balance (have + value)).

Fixpoint run (self : address) (r : recipient) : M unit :=
  match r with
  | Return => ret tt
  | Revert => revert (Error "")
  | Read k => v <- gets view ;; run self (k v)
  | Call c inner k =>
      e <- attempt (dispatch (run self inner) self c) ;;
      run self (k e)
  | CallAs other c inner k =>
      e <- attempt (dispatch (run other inner) other c) ;;
      run self (k e)
  | SelfDestruct value k =>
      forced (Z.of_N value) ;;
      run self k
  end.

(** Storage between transactions of the contract that [deployer] created
    at time [timestamp]: any message calls, and ether that arrives
    without a call (sent to the address before the deployment, or by a
    destroyed contract or a block reward after it); a reverted call
    changes nothing. *)
Inductive deployed (deployer : address) (timestamp : uint256) : State -> Prop :=
  | reach_deploy : deployed deployer timestamp (constructor deployer timestamp)
  | reach_call s sender r c :
      deployed deployer timestamp s ->
      deployed deployer timestamp (commit (dispatch (run sender r) sender c) s)
  | reach_forced s (value : N) :
      deployed deployer timestamp s ->
      deployed deployer timestamp (commit (forced (Z.of_N value)) s).

Definition is_fallback (e : event) : bool :=
  match e with FallbackCalled _ _ => true | ReceiveCalled _ _ => false end.

Definition value_of (e : event) : uint256 :=
  match e with FallbackCalled _ v => v | ReceiveCalled _ v => v end.

(** Number of [FallbackCalled] events, and the ether of the latest logged
    call. *)
Definition fallback_events (l : list event) : Z :=
  Z.of_nat (length (filter (fun e => is_fallback e = true) l)).

Definition last_value (l : list event) : uint256 :=
  match last l with Some e => value_of e | None => 0 end.

(** The name the latest logged call left in [lastFunctionCalled]. *)
Definition last_logged (l : list event) : string :=
  match last l with
  | None => "constructor"
  | Some (FallbackCalled _ _) => "fallback"
  | Some (ReceiveCalled _ _) => "receive"
  end.

(** What the storage of the contract of [deployer], created at
    [timestamp], always satisfies. *)
Definition consistent (deployer : address) (timestamp : uint256) (s : State) : Prop :=
  owner s = deployer /\
  creationTime s = timestamp /\
  fallbackCallCount s = fallback_events (log s) /\
  lastCallValue s = last_value (log s) /\
  0 <= this_balance s /\
  (lastFunctionCalled s = "doSomething" \/ lastFunctionCalled s = last_logged (log s)).
End ConstructorAndFallback.


(** ** MyToken.integerToString (the ERC721 example) *)

Module MyToken.
(** [bytes memory] and [string memory] as lists of byte values. *)
Abbreviation bytes := (list Z).

(** The loops run on gas: [None] is running out of it. *)

(** [while (temp != 0) { digits++; temp /= 10; }] *)
Fixpoint count_digits (gas : nat) (temp digits : uint256) : option (result uint256) :=
  if temp =? 0 then Some (Ok digits)
  else
    match gas with
    | O => None
    | S gas' =>
        if digits + 1 <=? UINT256_MAX
        then count_digits gas' (temp / 10) (digits + 1)
        else Some (Err (Panic 17))
    end.

(** [while (_value != 0) { digits -= 1;
      buffer[digits] = bytes1(uint8(48 + _value % 10)); _value /= 10; }]
    An index outside the buffer panics with code 0x32. *)
Fixpoint fill (gas : nat) (_value digits : uint256) (buffer : bytes)
    : option (result bytes) :=
  if _value =? 0 then Some (Ok buffer)
  else
    match gas with
    | O => None
    | S gas' =>
        if 1 <=? digits
        then
          let digits' := digits - 1 in
          if digits' <? Z.of_nat (length buffer)
          then fill gas' (_value / 10) digits'
                 (<[Z.to_nat digits' := (48 + _value mod 10) mod 256]> buffer)
          else Some (Err (Panic 50))
        else Some (Err (Panic 17))
    end.

Definition integerToString (gas : nat) (_value : uint256) : option (result bytes) :=
  if _value =? 0 then Some (Ok [48])
  else
    match count_digits gas _value 0 with
    | Some (Ok digits) => fill gas _value digits (replicate (Z.to_nat digits) 0)
    | Some (Err e) => Some (Err e)
    | None => None
    end.

(** Reading a decimal numeral back, most significant digit first. *)
Definition parse (b : bytes) : Z :=
  fold_left (fun acc c => 10 * acc + (c - 48)) b 0.

(** The [n] lowest decimal digits of [v] as characters, most significant
    first. *)
Fixpoint decimal (n : nat) (v : Z) : bytes :=
  match n with
  | O => []
  | S n' => decimal n' (v / 10) ++ [48 + v mod 10]
  end.
End MyToken.


(** ** Scenarios used as concrete inputs *)

(** Coin deployed by account 1, which mints 100 to account 2; account 2
    sends 30 to account 3. *)
Definition coin_after_send : Coin.State :=
  commit (Coin.dispatch 2 (Coin.send_ 3 30))
    (commit (Coin.dispatch 1 (Coin.mint_ 2 100)) (Coin.constructor 1)).

(** SimpleCoin deployed by account 1 with an initial supply of one token. *)
Definition simplecoin_deployed : SimpleCoin.State :=
  commit (SimpleCoin.constructor 1 1 "Simple" "SIM") SimpleCoin.blank.

(** SecurityPitfalls deployed by account 1; accounts 8 and 7 deposit 100
    each. *)
Definition pitfalls_funded : SecurityPitfalls.State :=
  commit (SecurityPitfalls.dispatch (SecurityPitfalls.run 7 SecurityPitfalls.Return) 7
            (SecurityPitfalls.deposit_ 100))
    (commit (SecurityPitfalls.dispatch (SecurityPitfalls.run 8 SecurityPitfalls.Return) 8
               (SecurityPitfalls.deposit_ 100))
       (SecurityPitfalls.constructor 1)).

(** SimpleCoin deployed by account 1 with the largest initial supply
    whose scaling by 10^18 still fits in a uint256. *)
Definition simplecoin_full : SimpleCoin.State :=
  commit (SimpleCoin.constructor 1 (UINT256_MAX / 10 ^ 18) "Simple" "SIM")
         SimpleCoin.blank.

(** AdminExtension deployed by account 1 with 1000 tokens, buying at 10
    tokens per wei and selling at 10 tokens per wei; account 2 then buys
    with 5 wei. *)
Definition pool_deployed : AdminExtension.State :=
  commit (AdminExtension.constructor 1 "Pool" "POOL" 1000 10 10) AdminExtension.blank.

Definition pool_traded : AdminExtension.State :=
  commit (AdminExtension.dispatch (AdminExtension.run 2 AdminExtension.Return) 2
            (AdminExtension.buyTokens_ 5)) pool_deployed.

(** ConstructorAndFallback deployed by account 1 at time 1700000000;
    account 2 then sends 7 wei with unknown calldata and 3 wei with none. *)
Definition fallback_paid : ConstructorAndFallback.State :=
  commit (ConstructorAndFallback.dispatch
            (ConstructorAndFallback.run 2 ConstructorAndFallback.Return) 2
            (ConstructorAndFallback.receive_ 3))
    (commit (ConstructorAndFallback.dispatch
               (ConstructorAndFallback.run 2 ConstructorAndFallback.Return) 2
               (ConstructorAndFallback.fallback_ 7))
       (ConstructorAndFallback.constructor 1 1700000000)).

(** A TokenBase ledger after minting 100 to account 1. *)
Definition tokenbase_minted : TokenBase.State :=
  commit (TokenBase.step (TokenBase.Mint 1 100)) TokenBase.fresh.


(** * Properties *)

(** ** Reasoning about the monad *)

Ltac unfold_monad :=
  unfold outcome, commit, calls, add256, sub256, mul256, require, attempt,
    bind, ret, revert, gets, modify, tell in *.

(** Case analysis on the next comparison the code makes. *)
Ltac zcase :=
  match goal with
  | |- context [?a <=? ?b] => destruct (Z.leb_spec a b)
  | |- context [?a <? ?b] => destruct (Z.ltb_spec a b)
  | |- context [?a >? ?b] => destruct (Z.gtb_spec a b)
  | |- context [?a =? ?b] => destruct (Z.eqb_spec a b)
  end; cbn.

(** Symbolic execution: resolve mapping reads, then split on the next
    comparison, closing the branches the hypotheses exclude. *)
Ltac zcases :=
  repeat first
    [ rewrite lookup_insert_eq
    | rewrite lookup_insert_ne by (assumption || congruence)
    | progress cbn
    | zcase; try lia ].

Lemma balance_insert (m : gmap Z Z) (a b : Z) (v : Z) :
  default 0 (<[a := v]> m !! b) = if decide (a = b) then v else default 0 (m !! b).
Proof.
  destruct (decide (a = b)) as [->|Hne].
  - by rewrite lookup_insert_eq.
  - by rewrite lookup_insert_ne.
Qed.

(** ** Coin *)

Section CoinFacts.
Import Coin.

Lemma send_insufficient (s : State) (sender receiver : Z) (amount : Z) :
  balance s sender < amount ->
  send sender receiver amount s =
    ([], Err (InsufficientBalance amount (balance s sender))).
Proof.
  intros Hlt. unfold send. unfold_monad. cbn. zcase; [reflexivity | lia].
Qed.

Lemma send_self (s : State) (sender : Z) (amount : Z) :
  amount <= balance s sender <= UINT256_MAX ->
  exists s',
    send sender sender amount s = ([], Ok (tt, s')) /\
    (forall a, balance s' a = balance s a) /\
    minter s' = minter s.
Proof.
  intros [Hle Hmax]. unfold send, debit, credit, emit, balance in *.
  unfold_monad. zcases.
  eexists. split; [reflexivity |]. cbn. split; [| reflexivity].
  intros a. rewrite !balance_insert.
  destruct (decide (sender = a)) as [->|]; [lia | reflexivity].
Qed.

Lemma mint_not_minter (s : State) (sender receiver : Z) (amount : Z) :
  sender <> minter s ->
  mint sender receiver amount s =
    ([], Err (Error "Only the minter can create new coins")).
Proof.
  intros Hne. unfold mint. unfold_monad. cbn. zcase; [contradiction | reflexivity].
Qed.

Lemma UINT256_MAX_pos : 0 <= UINT256_MAX.
Proof. unfold UINT256_MAX. lia. Qed.

Lemma dispatch_typed (sender : Z) (c : call) (s : State) :
  typed s -> typed (commit (dispatch sender c) s).
Proof.
  intros Hty. pose proof UINT256_MAX_pos.
  destruct c as [receiver amount|receiver amount]; cbn [dispatch];
    unfold mint, send, debit, credit, emit, typed, balance in *; unfold_monad;
    zcases; try assumption; intros a; pose proof (Hty a); pose proof (Hty sender);
    pose proof (Hty receiver); rewrite ?balance_insert in *;
    repeat case_decide; subst; lia.
Qed.

Lemma reachable_typed (s : State) : reachable s -> typed s.
Proof.
  induction 1 as [sender|s sender c Hreach IH].
  - intros a. unfold balance. cbn. rewrite lookup_empty. cbn.
    pose proof UINT256_MAX_pos. lia.
  - by apply dispatch_typed.
Qed.

Lemma coin_after_send_reachable : reachable coin_after_send.
Proof. do 2 apply reach_call. apply reach_deploy. Defined.
End CoinFacts.

(** ** Sums over balance mappings *)

Arguments sum_balances : simpl never.

Lemma sum_balances_empty : sum_balances ∅ = 0.
Proof. unfold sum_balances. by rewrite map_fold_empty. Qed.

Lemma sum_balances_insert_fresh (m : gmap Z Z) (a v : Z) :
  m !! a = None -> sum_balances (<[a := v]> m) = v + sum_balances m.
Proof.
  intros Hnone. unfold sum_balances.
  rewrite map_fold_insert_L; [reflexivity | | assumption].
  intros; lia.
Qed.

Lemma sum_balances_delete (m : gmap Z Z) (a x : Z) :
  m !! a = Some x -> sum_balances m = x + sum_balances (delete a m).
Proof.
  intros Hsome. unfold sum_balances.
  rewrite (map_fold_delete_L _ _ a x m); [reflexivity | | assumption].
  intros; lia.
Qed.

(** Overwriting one entry moves the sum by the difference. *)
Lemma sum_balances_insert (m : gmap Z Z) (a v : Z) :
  sum_balances (<[a := v]> m) = sum_balances m - default 0 (m !! a) + v.
Proof.
  destruct (m !! a) as [x|] eqn:Hm; cbn.
  - rewrite <- insert_delete_eq.
    rewrite sum_balances_insert_fresh by apply lookup_delete_eq.
    rewrite (sum_balances_delete m a x Hm). lia.
  - rewrite sum_balances_insert_fresh by assumption. lia.
Qed.

(** ** TokenBase *)

Section TokenBaseFacts.
Import TokenBase.

Lemma ledger_inv_fresh : ledger_inv fresh.
Proof.
  split.
  - intros a. unfold balance, fresh. cbn. by rewrite lookup_empty.
  - cbn. by rewrite sum_balances_empty.
Qed.

Lemma mint_inv (s : State) (account amount : Z) :
  0 <= amount -> ledger_inv s -> ledger_inv (commit (_mint account amount) s).
Proof.
  intros Hamt [Hnn Hsum]. unfold _mint, credit, emit, ledger_inv, balance in *.
  unfold_monad. zcases; try (split; assumption).
  split.
  - intros a. rewrite balance_insert. pose proof (Hnn a). pose proof (Hnn account).
    case_decide; subst; lia.
  - rewrite sum_balances_insert. lia.
Qed.

Lemma burn_inv (s : State) (account amount : Z) :
  ledger_inv s -> ledger_inv (commit (_burn account amount) s).
Proof.
  intros [Hnn Hsum]. unfold _burn, debit, emit, ledger_inv, balance in *.
  unfold_monad. zcases; try (split; assumption).
  split.
  - intros a. rewrite balance_insert. pose proof (Hnn a).
    case_decide; subst; lia.
  - rewrite sum_balances_insert. lia.
Qed.

Lemma transfer_inv (s : State) (from to amount : Z) :
  0 <= amount -> ledger_inv s -> ledger_inv (commit (_transfer from to amount) s).
Proof.
  intros Hamt [Hnn Hsum]. unfold _transfer, debit, credit, emit, ledger_inv, balance in *.
  unfold_monad. zcases; try (split; assumption).
  split.
  - intros a. rewrite !balance_insert. pose proof (Hnn a). pose proof (Hnn to).
    repeat case_decide; subst; lia.
  - rewrite !sum_balances_insert. lia.
Qed.

Lemma step_inv (o : op) (s : State) :
  ledger_inv s -> ledger_inv (commit (step o) s).
Proof.
  intros Hinv. destruct o as [account amount|from to amount|account amount];
    cbn [step].
  - apply mint_inv; [lia | assumption].
  - assert (Ht : ledger_inv (commit (_transfer from to (Z.of_N amount)) s))
      by (apply transfer_inv; [lia | assumption]).
    unfold commit, bind, ret in *.
    destruct (_transfer from to (Z.of_N amount) s) as [t [[b s']|e]];
      cbn in *; assumption.
  - by apply burn_inv.
Qed.

Lemma reachable_inv (s : State) : reachable s -> ledger_inv s.
Proof.
  induction 1 as [|o s Hreach IH].
  - apply ledger_inv_fresh.
  - by apply step_inv.
Qed.

Lemma transfer_insufficient (s : State) (from to amount : Z) :
  balance s from < amount ->
  exists e, _transfer from to amount s = ([], Err e).
Proof.
  intros Hlt. unfold _transfer, balance in *. unfold_monad.
  zcases; eexists; reflexivity.
Qed.

Lemma burn_insufficient (s : State) (account amount : Z) :
  balance s account < amount ->
  exists e, _burn account amount s = ([], Err e).
Proof.
  intros Hlt. unfold _burn, balance in *. unfold_monad.
  zcases; eexists; reflexivity.
Qed.
End TokenBaseFacts.

(** ** SecurityPitfalls *)

Section SecurityPitfallsFacts.
Import SecurityPitfalls.

(** Run the recipient's code where the function under study calls it. *)
Ltac run_code :=
  match goal with
  | |- context [match ?c ?s with _ => _ end] =>
      let t := fresh "t" in let s' := fresh "s'" in
      let e := fresh "e" in let Hc := fresh "Hc" in
      destruct (c s) as [t [[[] s']|e]] eqn:Hc
  end; cbn.

Lemma stable_refl (s : State) : stable s s.
Proof. split; [reflexivity | split; [lia | auto]]. Qed.

Lemma stable_trans (s1 s2 s3 : State) : stable s1 s2 -> stable s2 s3 -> stable s1 s3.
Proof.
  intros (Hl1 & Hg1 & Hs1) (Hl2 & Hg2 & Hs2).
  split; [congruence | split; [lia | auto]].
Qed.

Lemma deposit_stable (self value : Z) (s s' : State) (t : list entry) (x : unit) :
  0 <= value -> deposit self value s = (t, Ok (x, s')) -> stable s s'.
Proof.
  intros Hv. unfold deposit, credit, emit, stable, surplus, balance. unfold_monad.
  zcases; try discriminate. intros [= <- <- <-]. cbn.
  split; [reflexivity | split].
  - rewrite sum_balances_insert. lia.
  - intros Hnn a. rewrite balance_insert. pose proof (Hnn self). pose proof (Hnn a).
    case_decide; lia.
Qed.

Lemma forced_stable (value : Z) (s s' : State) (t : list entry) (x : unit) :
  0 <= value -> forced value s = (t, Ok (x, s')) -> stable s s'.
Proof.
  intros Hv. unfold forced, stable, surplus, balance. unfold_monad.
  intros [= <- <- <-]. cbn. split; [reflexivity | split; [lia | auto]].
Qed.

Lemma unsafeWithdraw_stable (self amount : Z) (code : M unit) :
  (forall s t x s', code s = (t, Ok (x, s')) -> stable s s') ->
  forall s t x s',
    unsafeWithdraw code self amount s = (t, Ok (x, s')) -> stable s s'.
Proof.
  intros Hcode s t x s'.
  unfold unsafeWithdraw, call_value, debit, emit, stable, surplus, balance in *.
  unfold_monad.
  zcases; try discriminate. run_code; try discriminate.
  zcases; try discriminate.
  intros [= <- <- <-]. apply Hcode in Hc. cbn in *.
  destruct Hc as (Hlock & Hgap & Hsign).
  split; [congruence | split].
  - rewrite sum_balances_insert. lia.
  - intros Hnn a. rewrite balance_insert. pose proof (Hsign Hnn a).
    case_decide; lia.
Qed.

Lemma safeWithdraw_stable (self amount : Z) (code : M unit) :
  (forall s t x s', code s = (t, Ok (x, s')) -> stable s s') ->
  forall s t x s',
    safeWithdraw code self amount s = (t, Ok (x, s')) -> stable s s'.
Proof.
  intros Hcode s t x s'.
  unfold safeWithdraw, noReentrancy, call_value, debit, emit, stable, surplus,
    balance in *.
  unfold_monad. cbn.
  destruct (locked s) eqn:Hl; cbn; try discriminate.
  zcases; try discriminate. run_code; try discriminate.
  intros [= <- <- <-]. apply Hcode in Hc. cbn in *.
  destruct Hc as (Hlock & Hgap & Hsign).
  rewrite sum_balances_insert in Hgap.
  split; [congruence | split; [lia |]].
  intros Hnn. apply Hsign. intros a. rewrite balance_insert. pose proof (Hnn a).
  case_decide; lia.
Qed.

(** A successful message call is [stable], provided the caller's code is. *)
Lemma dispatch_stable (self : Z) (code : M unit) (c : call) :
  (forall s t x s', code s = (t, Ok (x, s')) -> stable s s') ->
  forall s t x s', dispatch code self c s = (t, Ok (x, s')) -> stable s s'.
Proof.
  intros Hcode s t x s'. destruct c; cbn [dispatch].
  - apply deposit_stable. lia.
  - by apply unsafeWithdraw_stable.
  - by apply safeWithdraw_stable.
  - unfold unsafeChangeOwner, modify. intros [= <- <- <-].
    split; [reflexivity | split; [reflexivity | auto]].
  - unfold safeChangeOwner, onlyOwner. unfold_monad. zcases; try discriminate.
    intros [= <- <- <-]. split; [reflexivity | split; [reflexivity | auto]].
Qed.

(** Whatever the recipient does, through whatever accounts, if its code
    returns, the contract is [stable] over it. *)
Lemma run_stable (r : recipient) :
  forall self s t x s', run self r s = (t, Ok (x, s')) -> stable s s'.
Proof.
  induction r as [| |k IH|c inner IHinner k IH|other c inner IHinner k IH|value k IH];
    intros self s t x s'; cbn [run].
  - unfold ret. intros [= <- <- <-]. apply stable_refl.
  - unfold revert. discriminate.
  - unfold bind, gets. cbn.
    destruct (run self (k (view s)) s) as [t' res] eqn:Hk.
    intros [= <- ->]. by eapply IH.
  - unfold bind, attempt, tell.
    destruct (dispatch (run self inner) self c s) as [t1 [[[] s1]|e]] eqn:Hd; cbn.
    + destruct (run self (k None) s1) as [t2 res] eqn:Hk.
      intros [= <- ->]. eapply stable_trans.
      * eapply dispatch_stable; [apply IHinner | apply Hd].
      * by eapply IH.
    + destruct (run self (k (Some e)) s) as [t2 res] eqn:Hk.
      intros [= <- ->]. by eapply IH.
  - unfold bind, attempt, tell.
    destruct (dispatch (run other inner) other c s) as [t1 [[[] s1]|e]] eqn:Hd; cbn.
    + destruct (run self (k None) s1) as [t2 res] eqn:Hk.
      intros [= <- ->]. eapply stable_trans.
      * eapply dispatch_stable; [apply IHinner | apply Hd].
      * by eapply IH.
    + destruct (run self (k (Some e)) s) as [t2 res] eqn:Hk.
      intros [= <- ->]. by eapply IH.
  - unfold bind.
    destruct (forced (Z.of_N value) s) as [t1 [[[] s1]|e]] eqn:Hf; [| discriminate].
    destruct (run self k s1) as [t2 res] eqn:Hk.
    intros [= <- ->]. eapply stable_trans.
    + eapply forced_stable; [| apply Hf]. lia.
    + by eapply IH.
Qed.

(** One call back into the contract: its record, then the rest of the
    recipient's code on the storage the call left (or on the storage
    before it, when it reverted). *)
Lemma run_call (self : Z) (c : call) (inner : recipient)
    (k : option error -> recipient) (s : State) :
  run self (Call c inner k) s =
    match dispatch (run self inner) self c s with
    | (t1, Ok (_, s1)) =>
        let (t2, res) := run self (k None) s1 in (t1 ++ (c, None) :: t2, res)
    | (t1, Err e) =>
        let (t2, res) := run self (k (Some e)) s in (t1 ++ (c, Some e) :: t2, res)
    end.
Proof.
  cbn [run]. unfold bind, attempt, tell.
  destruct (dispatch (run self inner) self c s) as [t1 [[[] s1]|e]]; cbn.
  - by destruct (run self (k None) s1).
  - by destruct (run self (k (Some e)) s).
Qed.

Lemma run_call_as (self other : Z) (c : call) (inner : recipient)
    (k : option error -> recipient) (s : State) :
  run self (CallAs other c inner k) s =
    match dispatch (run other inner) other c s with
    | (t1, Ok (_, s1)) =>
        let (t2, res) := run self (k None) s1 in (t1 ++ (c, None) :: t2, res)
    | (t1, Err e) =>
        let (t2, res) := run self (k (Some e)) s in (t1 ++ (c, Some e) :: t2, res)
    end.
Proof.
  cbn [run]. unfold bind, attempt, tell.
  destruct (dispatch (run other inner) other c s) as [t1 [[[] s1]|e]]; cbn.
  - by destruct (run self (k None) s1).
  - by destruct (run self (k (Some e)) s).
Qed.

(** With the lock held, [safeWithdraw] is refused before it reads anything. *)
Lemma safeWithdraw_locked (code : M unit) (sender amount : Z) (s : State) :
  locked s = true ->
  safeWithdraw code sender amount s = ([], Err (Error "Reentrant call detected")).
Proof.
  intros Hl. unfold safeWithdraw, noReentrancy. unfold_monad. cbn.
  rewrite Hl. reflexivity.
Qed.

(** A call made while the lock is held records only what the recipient's
    own code records, at a moment where the lock is still held. *)
Lemma dispatch_calls_locked (self : Z) (code : M unit) (c : call) (s : State) :
  locked s = true ->
  (forall s0, locked s0 = true -> Forall refused (fst (code s0))) ->
  Forall refused (fst (dispatch code self c s)).
Proof.
  intros Hl Hcode. destruct c; cbn [dispatch].
  - unfold deposit, credit, emit. unfold_monad. zcases; constructor.
  - unfold unsafeWithdraw, call_value, debit, emit. unfold_monad.
    zcases; try constructor.
    pose proof (Hcode (set_this_balance (this_balance s - Z.of_N _amount) s) Hl) as Ht.
    run_code; zcases; rewrite ?app_nil_r; assumption.
  - rewrite safeWithdraw_locked by assumption. constructor.
  - constructor.
  - unfold safeChangeOwner, onlyOwner. unfold_monad. zcases; constructor.
Qed.

(** One recorded call made while the lock is held, and the rest of the
    record. *)
Lemma call_refused (self caller : Z) (c : call) (inner : recipient)
    (k : option error -> recipient) (s : State) :
  locked s = true ->
  Forall refused (fst (dispatch (run caller inner) caller c s)) ->
  (forall e s0, locked s0 = true -> Forall refused (fst (run self (k e) s0))) ->
  Forall refused
    (fst (match dispatch (run caller inner) caller c s with
          | (t1, Ok (_, s1)) =>
              let (t2, res) := run self (k None) s1 in (t1 ++ (c, None) :: t2, res)
          | (t1, Err e) =>
              let (t2, res) := run self (k (Some e)) s in (t1 ++ (c, Some e) :: t2, res)
          end)).
Proof.
  intros Hl Hd IH.
  destruct (dispatch (run caller inner) caller c s) as [t1 [[[] s1]|e]] eqn:Hdis;
    cbn in Hd.
  - assert (Hl1 : locked s1 = true).
    { destruct (dispatch_stable caller _ c (run_stable inner caller) _ _ _ _ Hdis).
      congruence. }
    specialize (IH None s1 Hl1).
    destruct (run self (k None) s1) as [t2 res]. cbn in *.
    apply Forall_app. split; [assumption |].
    constructor; [| assumption].
    intros a Ha. cbn in Ha. subst c. cbn [dispatch] in Hdis.
    rewrite safeWithdraw_locked in Hdis by assumption. discriminate.
  - specialize (IH (Some e) s Hl).
    destruct (run self (k (Some e)) s) as [t2 res]. cbn in *.
    apply Forall_app. split; [assumption |].
    constructor; [| assumption].
    intros a Ha. cbn in Ha. subst c. cbn [dispatch] in Hdis.
    rewrite safeWithdraw_locked in Hdis by assumption. cbn. congruence.
Qed.

(** Every re-entry into [safeWithdraw] made while the lock is held, at
    any depth and from any account, is refused. *)
Lemma run_refused (r : recipient) :
  forall self s, locked s = true -> Forall refused (fst (run self r s)).
Proof.
  induction r as [| |k IH|c inner IHinner k IH|other c inner IHinner k IH|value k IH];
    intros self s Hl.
  - constructor.
  - constructor.
  - cbn. unfold bind, gets. cbn.
    destruct (run self (k (view s)) s) as [t' res] eqn:Hk. cbn.
    specialize (IH (view s) self s Hl). by rewrite Hk in IH.
  - rewrite run_call. apply call_refused; [assumption | |].
    + apply dispatch_calls_locked; [assumption | apply IHinner].
    + intros e s0. apply IH.
  - rewrite run_call_as. apply call_refused; [assumption | |].
    + apply dispatch_calls_locked; [assumption | apply IHinner].
    + intros e s0. apply IH.
  - cbn [run]. unfold bind, forced, gets, modify. cbn.
    pose proof (IH self (set_this_balance (this_balance s + Z.of_N value) s) Hl) as Hk.
    destruct (run self k _) as [t2 res]. exact Hk.
Qed.

(** [safeWithdraw] from an unlocked contract, checks passed: the outcome
    is the recipient's verdict. *)
Lemma safeWithdraw_unlocked (code : M unit) (sender amount : Z) (s : State) :
  locked s = false -> amount <= balance s sender -> amount <= this_balance s ->
  safeWithdraw code sender amount s =
    match code (at_interaction sender amount s) with
    | (t, Ok (_, s1)) => (t, Ok (tt, completed sender amount s1))
    | (t, Err _) => (t, Err (Error "Transfer failed"))
    end.
Proof.
  intros Hl Hbal Heth.
  unfold safeWithdraw, noReentrancy, call_value, debit, emit, at_interaction,
    completed, balance in *.
  unfold_monad. cbn. rewrite Hl. zcases.
  unfold set_this_balance, set_balance, set_locked. cbn.
  match goal with |- context [code ?st] => destruct (code st) as [t [[[] s1]|e]] end;
    cbn; rewrite ?app_nil_r; reflexivity.
Qed.

Lemma safeWithdraw_no_ether (code : M unit) (sender amount : Z) (s : State) :
  locked s = false -> amount <= balance s sender -> this_balance s < amount ->
  safeWithdraw code sender amount s = ([], Err (Error "Transfer failed")).
Proof.
  intros Hl Hbal Heth.
  unfold safeWithdraw, noReentrancy, call_value, debit, emit, balance in *.
  unfold_monad. cbn. rewrite Hl. zcases. reflexivity.
Qed.

Lemma safeWithdraw_insufficient (code : M unit) (sender amount : Z) (s : State) :
  locked s = false -> balance s sender < amount ->
  safeWithdraw code sender amount s = ([], Err (Error "Insufficient balance")).
Proof.
  intros Hl Hbal.
  unfold safeWithdraw, noReentrancy, balance in *.
  unfold_monad. cbn. rewrite Hl. zcases. reflexivity.
Qed.

(** [unsafeWithdraw], checks passed: the recipient runs on the
    undecremented balance, and the decrement comes afterwards, checked. *)
Lemma unsafeWithdraw_enough (code : M unit) (sender amount : Z) (s : State) :
  amount <= balance s sender -> amount <= this_balance s ->
  unsafeWithdraw code sender amount s =
    match code (at_unsafe_interaction amount s) with
    | (t, Ok (_, s1)) =>
        if amount <=? balance s1 sender
        then (t, Ok (tt, mkState (owner s1)
                           (<[sender := balance s1 sender - amount]> (balances s1))
                           (locked s1) (this_balance s1)
                           (log s1 ++ [Withdrawal sender amount])))
        else (t, Err (Panic 17))
    | (t, Err _) => (t, Err (Error "Transfer failed"))
    end.
Proof.
  intros Hbal Heth.
  unfold unsafeWithdraw, call_value, debit, emit, at_unsafe_interaction, balance in *.
  unfold_monad. zcases.
  match goal with |- context [code ?st] => destruct (code st) as [t [[[] s1]|e]] end;
    zcases; rewrite ?app_nil_r; reflexivity.
Qed.

(** A message call never leaves the lock changed, whether it succeeds or
    reverts. *)
Lemma commit_stable (m : M unit) (s : State) :
  (forall t x s', m s = (t, Ok (x, s')) -> stable s s') ->
  stable s (commit m s).
Proof.
  intros Hm. unfold commit. destruct (m s) as [t [[[] s']|e]]; cbn.
  - by eapply Hm.
  - apply stable_refl.
Qed.

(** Sums split at one account. *)
Lemma sum_balances_split (m : gmap Z Z) (a : Z) :
  sum_balances m = default 0 (m !! a) + sum_balances (delete a m).
Proof.
  destruct (m !! a) as [x|] eqn:Hm; cbn.
  - by apply sum_balances_delete.
  - by rewrite delete_id.
Qed.

Lemma sum_balances_nonneg (m : gmap Z Z) :
  (forall a, 0 <= default 0 (m !! a)) -> 0 <= sum_balances m.
Proof.
  induction m as [|i x m Hnone IH] using map_ind; intros Hnn.
  - by rewrite sum_balances_empty.
  - rewrite sum_balances_insert_fresh by assumption.
    pose proof (Hnn i) as Hi. rewrite lookup_insert_eq in Hi. cbn in Hi.
    assert (0 <= sum_balances m); [| lia].
    apply IH. intros a. destruct (decide (i = a)) as [<-|Hne].
    + by rewrite Hnone.
    + specialize (Hnn a). by rewrite lookup_insert_ne in Hnn.
Qed.

(** A [stable] step keeps the contract solvent. *)
Lemma stable_solvent (s s' : State) : stable s s' -> solvent s -> solvent s'.
Proof.
  intros (_ & Hgap & Hsign) [Hsum Hnn]. unfold solvent, surplus in *.
  split; [lia | by apply Hsign].
Qed.

Lemma reachable_stable (s : State) (sender : Z) (r : recipient) (c : call) :
  stable s (commit (dispatch (run sender r) sender c) s).
Proof.
  apply commit_stable. intros t x s'.
  apply dispatch_stable, run_stable.
Qed.

Lemma reachable_forced_stable (s : State) (value : N) :
  stable s (commit (forced (Z.of_N value)) s).
Proof.
  apply commit_stable. intros t x s'. apply forced_stable. lia.
Qed.

(** Between transactions the lock is free and the contract is solvent. *)
Lemma reachable_unlocked (s : State) : reachable s -> locked s = false.
Proof.
  induction 1 as [sender|s sender r c Hreach IH|s value Hreach IH].
  - reflexivity.
  - destruct (reachable_stable s sender r c) as [Hl _]. congruence.
  - destruct (reachable_forced_stable s value) as [Hl _]. congruence.
Qed.

Lemma reachable_solvent (s : State) : reachable s -> solvent s.
Proof.
  induction 1 as [sender|s sender r c Hreach IH|s value Hreach IH].
  - split; cbn.
    + rewrite sum_balances_empty. lia.
    + intros a. unfold balance. cbn. by rewrite lookup_empty.
  - eapply stable_solvent; [apply reachable_stable | assumption].
  - eapply stable_solvent; [apply reachable_forced_stable | assumption].
Qed.

(** No balance exceeds the sum of all of them. *)
Lemma balance_le_sum (m : gmap Z Z) (a : Z) :
  (forall b, 0 <= default 0 (m !! b)) -> default 0 (m !! a) <= sum_balances m.
Proof.
  intros Hnn. rewrite (sum_balances_split m a).
  assert (0 <= sum_balances (delete a m)); [| lia].
  apply sum_balances_nonneg. intros b. destruct (decide (a = b)) as [<-|Hne].
  - by rewrite lookup_delete_eq.
  - rewrite lookup_delete_ne by assumption. apply Hnn.
Qed.

(** A solvent contract holds enough ether for any withdrawal within
    balance. *)
Lemma solvent_enough (s : State) (a amount : Z) :
  solvent s -> amount <= balance s a -> amount <= this_balance s.
Proof.
  intros [Hsum Hnn] Hbal. unfold balance in *.
  pose proof (balance_le_sum (balances s) a Hnn). lia.
Qed.

Lemma pitfalls_funded_reachable : reachable pitfalls_funded.
Proof. do 2 apply reach_call. apply reach_deploy. Defined.

(** The calls recorded during a [safeWithdraw] from an unlocked contract
    are all made while the lock is held. *)
Lemma safeWithdraw_calls_refused (self amount : Z) (r : recipient) (s : State) :
  locked s = false ->
  Forall refused (fst (safeWithdraw (run self r) self amount s)).
Proof.
  intros Hl.
  destruct (Z.le_gt_cases amount (balance s self)) as [Hbal|Hbal].
  - destruct (Z.le_gt_cases amount (this_balance s)) as [Heth|Heth].
    + rewrite safeWithdraw_unlocked by assumption.
      pose proof (run_refused r self (at_interaction self amount s) eq_refl) as Hr.
      destruct (run self r (at_interaction self amount s)) as [t [[[] s1]|e]];
        assumption.
    + rewrite safeWithdraw_no_ether by assumption. constructor.
  - rewrite safeWithdraw_insufficient by assumption. constructor.
Qed.

(** A recipient that accepts the ether lets [safeWithdraw] succeed. *)
Lemma safeWithdraw_accepted (sender amount : Z) (s : State) :
  locked s = false -> amount <= balance s sender -> amount <= this_balance s ->
  safeWithdraw (run sender Return) sender amount s =
    ([], Ok (tt, completed sender amount (at_interaction sender amount s))).
Proof. intros Hl Hbal Heth. by rewrite safeWithdraw_unlocked. Qed.


(** A withdrawal by another account, running code that never has [a]
    call the contract, leaves the entry of [a] alone. *)
Lemma unsafeWithdraw_untouched (a self amount : Z) (code : M unit) :
  self <> a ->
  (forall s t x s', code s = (t, Ok (x, s')) -> balances s' !! a = balances s !! a) ->
  forall s t x s',
    unsafeWithdraw code self amount s = (t, Ok (x, s')) ->
    balances s' !! a = balances s !! a.
Proof.
  intros Hne Hcode s t x s'.
  unfold unsafeWithdraw, call_value, debit, emit, balance. unfold_monad.
  zcases; try discriminate. run_code; try discriminate.
  zcases; try discriminate.
  intros [= <- <- <-]. apply Hcode in Hc. cbn in *.
  by rewrite lookup_insert_ne.
Qed.

(** So does any call from another account. *)
Lemma dispatch_untouched (a self : Z) (code : M unit) (c : call) :
  self <> a ->
  (forall s t x s', code s = (t, Ok (x, s')) -> balances s' !! a = balances s !! a) ->
  forall s t x s',
    dispatch code self c s = (t, Ok (x, s')) -> balances s' !! a = balances s !! a.
Proof.
  intros Hne Hcode s t x s'. destruct c; cbn [dispatch].
  - unfold deposit, credit, emit, balance. unfold_monad.
    zcases; try discriminate. intros [= <- <- <-]. cbn.
    by rewrite lookup_insert_ne.
  - by apply unsafeWithdraw_untouched.
  - unfold safeWithdraw, noReentrancy, call_value, debit, emit, balance.
    unfold_monad. cbn.
    destruct (locked s) eqn:Hl; cbn; try discriminate.
    zcases; try discriminate. run_code; try discriminate.
    intros [= <- <- <-]. apply Hcode in Hc. cbn in *.
    by rewrite lookup_insert_ne in Hc.
  - unfold unsafeChangeOwner, modify. by intros [= <- <- <-].
  - unfold safeChangeOwner, onlyOwner. unfold_monad. zcases; try discriminate.
    by intros [= <- <- <-].
Qed.


Lemma run_untouched (a : Z) (r : recipient) :
  forall self, self <> a -> avoids a r ->
  forall s t x s', run self r s = (t, Ok (x, s')) -> balances s' !! a = balances s !! a.
Proof.
  induction r as [| |k IH|c inner IHinner k IH|other c inner IHinner k IH|value k IH];
    intros self Hne Hav s t x s'; cbn [run]; cbn [avoids] in Hav.
  - unfold ret. by intros [= <- <- <-].
  - unfold revert. discriminate.
  - unfold bind, gets. cbn.
    destruct (run self (k (view s)) s) as [t' res] eqn:Hk.
    intros [= <- ->]. by eapply IH.
  - destruct Hav as [Hin Hk]. unfold bind, attempt, tell.
    destruct (dispatch (run self inner) self c s) as [t1 [[[] s1]|e]] eqn:Hd; cbn.
    + destruct (run self (k None) s1) as [t2 res] eqn:Hrun.
      intros [= <- ->]. etransitivity; [by eapply IH |].
      eapply dispatch_untouched; [exact Hne | by apply IHinner | exact Hd].
    + destruct (run self (k (Some e)) s) as [t2 res] eqn:Hrun.
      intros [= <- ->]. by eapply IH.
  - destruct Hav as (Hother & Hin & Hk). unfold bind, attempt, tell.
    destruct (dispatch (run other inner) other c s) as [t1 [[[] s1]|e]] eqn:Hd; cbn.
    + destruct (run self (k None) s1) as [t2 res] eqn:Hrun.
      intros [= <- ->]. rewrite (IH None self Hne (Hk None) _ _ _ _ Hrun).
      eapply dispatch_untouched; [exact Hother | by apply IHinner | exact Hd].
    + destruct (run self (k (Some e)) s) as [t2 res] eqn:Hrun.
      intros [= <- ->]. apply (IH (Some e) self Hne (Hk (Some e)) _ _ _ _ Hrun).
  - unfold bind, forced, gets, modify. cbn.
    destruct (run self k _) as [t2 res] eqn:Hrun.
    intros [= <- ->]. by apply (IH self Hne Hav _ _ _ _ Hrun).
Qed.
End SecurityPitfallsFacts.

(** * Concrete runs *)

Example coin_mint_then_send :
  Coin.balance coin_after_send 2 = 70 /\ Coin.balance coin_after_send 3 = 30.
Proof. split; vm_compute; reflexivity. Qed.

Example coin_send_too_much :
  outcome (Coin.dispatch 2 (Coin.send_ 3 1000)) coin_after_send
  = Err (InsufficientBalance 1000 70).
Proof. vm_compute. reflexivity. Qed.

Example coin_mint_by_stranger :
  outcome (Coin.dispatch 3 (Coin.mint_ 4 10)) coin_after_send
  = Err (Error "Only the minter can create new coins").
Proof. vm_compute. reflexivity. Qed.

Example tokenbase_mint_supply :
  TokenBase.totalSupply tokenbase_minted = 100 /\
  TokenBase.balanceOf tokenbase_minted 1 = 100.
Proof. split; vm_compute; reflexivity. Qed.

Example simplecoin_supply_after_deploy :
  SimpleCoin.totalSupply simplecoin_deployed = 10 ^ 18 /\
  sum_balances (SimpleCoin.balanceOf simplecoin_deployed) = 10 ^ 18.
Proof. split; vm_compute; reflexivity. Qed.

Example pitfalls_funded_state :
  SecurityPitfalls.balance pitfalls_funded 7 = 100 /\
  SecurityPitfalls.getContractBalance pitfalls_funded = 200 /\
  SecurityPitfalls.locked pitfalls_funded = false.
Proof. repeat split; vm_compute; reflexivity. Qed.

(** A recipient that re-enters [safeWithdraw] and passes the failure on
    makes the outer call fail; nothing is paid, nothing is recorded. *)
Example reentry_passed_on :
  let r := SecurityPitfalls.Call (SecurityPitfalls.safeWithdraw_ 40)
             SecurityPitfalls.Return
             (fun e => match e with
                       | None => SecurityPitfalls.Return
                       | Some _ => SecurityPitfalls.Revert
                       end) in
  let m := SecurityPitfalls.safeWithdraw (SecurityPitfalls.run 7 r) 7 40 in
  outcome m pitfalls_funded = Err (Error "Transfer failed") /\
  commit m pitfalls_funded = pitfalls_funded.
Proof. split; vm_compute; reflexivity. Qed.

(** Re-entering [unsafeWithdraw] within the balance: both withdrawals go
    through and the balance ends at zero. *)
Example unsafe_reentry_within_balance :
  let r := SecurityPitfalls.Call (SecurityPitfalls.unsafeWithdraw_ 60)
             SecurityPitfalls.Return (fun _ => SecurityPitfalls.Return) in
  let s := commit (SecurityPitfalls.unsafeWithdraw (SecurityPitfalls.run 7 r) 7 40)
             pitfalls_funded in
  SecurityPitfalls.balance s 7 = 0 /\ SecurityPitfalls.this_balance s = 100.
Proof. split; vm_compute; reflexivity. Qed.


(** * The claims *)

Lemma tokenbase_minted_reachable : TokenBase.reachable tokenbase_minted.
Proof. apply TokenBase.reach_step, TokenBase.reach_fresh. Defined.

(** C1, as stated, fails on SimpleCoin: after the owner mints 100 to
    account 2, or transfers 30 to it, [totalSupply()] still reports the
    owner's balance alone and differs from the sum of the balances. *)
Lemma C1_simplecoin_totalSupply_not_sum :
  (exists s, outcome (SimpleCoin.mint 1 2 100) simplecoin_deployed = Ok (true, s) /\
             SimpleCoin.totalSupply s = 10 ^ 18 /\
             sum_balances (SimpleCoin.balanceOf s) = 10 ^ 18 + 100) /\
  (exists s, outcome (SimpleCoin.transfer 1 2 30) simplecoin_deployed = Ok (true, s) /\
             SimpleCoin.totalSupply s = 10 ^ 18 - 30 /\
             sum_balances (SimpleCoin.balanceOf s) = 10 ^ 18) /\
  ~ (forall s b, outcome (SimpleCoin.mint 1 2 100) simplecoin_deployed = Ok (b, s) ->
                 SimpleCoin.totalSupply s = sum_balances (SimpleCoin.balanceOf s)).
Proof.
  split; [| split].
  - eexists. split; [vm_compute; reflexivity |]. split; vm_compute; reflexivity.
  - eexists. split; [vm_compute; reflexivity |]. split; vm_compute; reflexivity.
  - intros H. specialize (H _ true eq_refl). vm_compute in H. discriminate.
Qed.

(** C1, amended to the ledger that records its supply: in TokenBase, after
    any sequence of [_mint], [_transfer] and [_burn] calls on zeroed
    storage, [totalSupply()] is the sum of all balance entries. *)
Theorem C1_conservation (s : TokenBase.State) :
  TokenBase.reachable s ->
  TokenBase.totalSupply s = sum_balances (TokenBase._balances s).
Proof. intros Hreach. apply (reachable_inv s Hreach). Qed.

Lemma C1_conservation_witness :
  TokenBase.totalSupply tokenbase_minted =
  sum_balances (TokenBase._balances tokenbase_minted).
Proof. apply C1_conservation. apply tokenbase_minted_reachable. Defined.

(** C5: a [send] of more than the sender holds reverts with
    [InsufficientBalance(requested = amount, available = balance)], and
    the storage, hence every balance and their total, is as before. *)
Theorem C5_send_insufficient_balance
    (s : Coin.State) (caller receiver : Z) (amount : Z) :
  Coin.balance s caller < amount ->
  outcome (Coin.send caller receiver amount) s =
    Err (InsufficientBalance amount (Coin.balance s caller)) /\
  commit (Coin.send caller receiver amount) s = s /\
  (forall a, Coin.balance (commit (Coin.send caller receiver amount) s) a =
             Coin.balance s a) /\
  sum_balances (Coin.balances (commit (Coin.send caller receiver amount) s)) =
    sum_balances (Coin.balances s).
Proof.
  intros Hlt. pose proof (send_insufficient s caller receiver amount Hlt) as Hsend.
  unfold outcome, commit. rewrite Hsend. cbn. repeat split; reflexivity.
Qed.

Lemma C5_send_insufficient_balance_witness :
  outcome (Coin.send 2 3 1000) coin_after_send = Err (InsufficientBalance 1000 70).
Proof.
  apply (C5_send_insufficient_balance coin_after_send 2 3 1000).
  vm_compute. reflexivity.
Defined.

(** C6: in TokenBase no balance is ever negative, and a [_transfer] or
    [_burn] of more than the account holds reverts and leaves the storage
    as it was. *)
Theorem C6_non_negativity (s : TokenBase.State) :
  TokenBase.reachable s ->
  (forall a, 0 <= TokenBase.balanceOf s a) /\
  (forall from to amount,
     TokenBase.balance s from < amount ->
     (exists e, outcome (TokenBase._transfer from to amount) s = Err e) /\
     commit (TokenBase._transfer from to amount) s = s) /\
  (forall account amount,
     TokenBase.balance s account < amount ->
     (exists e, outcome (TokenBase._burn account amount) s = Err e) /\
     commit (TokenBase._burn account amount) s = s).
Proof.
  intros Hreach. split; [| split].
  - apply (reachable_inv s Hreach).
  - intros from to amount Hlt.
    destruct (transfer_insufficient s from to amount Hlt) as [e He].
    unfold outcome, commit. rewrite He. cbn. split; [by exists e | reflexivity].
  - intros account amount Hlt.
    destruct (burn_insufficient s account amount Hlt) as [e He].
    unfold outcome, commit. rewrite He. cbn. split; [by exists e | reflexivity].
Qed.

Lemma C6_non_negativity_witness :
  0 <= TokenBase.balanceOf tokenbase_minted 1 /\
  commit (TokenBase._transfer 1 2 1000) tokenbase_minted = tokenbase_minted /\
  commit (TokenBase._burn 1 1000) tokenbase_minted = tokenbase_minted.
Proof.
  destruct (C6_non_negativity tokenbase_minted tokenbase_minted_reachable)
    as [Hnn [Htransfer Hburn]].
  split; [apply Hnn | split].
  - apply (Htransfer 1 2 1000). vm_compute. reflexivity.
  - apply (Hburn 1 1000). vm_compute. reflexivity.
Defined.

(** C8: sending to oneself an amount one holds succeeds and leaves every
    balance as it was; sending more than one holds reverts with
    [InsufficientBalance]. *)
Theorem C8_self_transfer (s : Coin.State) (caller : Z) (amount : Z) :
  Coin.reachable s ->
  (amount <= Coin.balance s caller ->
   exists s', outcome (Coin.send caller caller amount) s = Ok (tt, s') /\
              forall a, Coin.balance s' a = Coin.balance s a) /\
  (Coin.balance s caller < amount ->
   outcome (Coin.send caller caller amount) s =
     Err (InsufficientBalance amount (Coin.balance s caller))).
Proof.
  intros Hreach. pose proof (reachable_typed s Hreach caller) as [_ Hmax]. split.
  - intros Hle. destruct (send_self s caller amount (conj Hle Hmax)) as [s' [Hs [Hb _]]].
    exists s'. unfold outcome. rewrite Hs. split; [reflexivity | assumption].
  - intros Hlt. unfold outcome. by rewrite send_insufficient.
Qed.

Lemma C8_self_transfer_witness :
  (exists s', outcome (Coin.send 2 2 70) coin_after_send = Ok (tt, s') /\
              forall a, Coin.balance s' a = Coin.balance coin_after_send a) /\
  outcome (Coin.send 2 2 71) coin_after_send = Err (InsufficientBalance 71 70).
Proof.
  split.
  - apply (C8_self_transfer coin_after_send 2 70 coin_after_send_reachable).
    by vm_compute.
  - apply (C8_self_transfer coin_after_send 2 71 coin_after_send_reachable).
    by vm_compute.
Defined.

Section SecurityPitfallsClaims.
Import SecurityPitfalls.

(** C2: between transactions the lock is free. During a [safeWithdraw]
    every re-entry into [safeWithdraw], at any depth, fails with
    "Reentrant call detected"; the outer call runs to completion with the
    outcome the recipient's own code decides (it succeeds, with one
    decrement, when the recipient returns after the refused re-entry, and
    fails with "Transfer failed" when the recipient reverts); the lock is
    free again afterwards on success and on failure; and a later
    [safeWithdraw] within balance, paid to an accepting recipient,
    succeeds. *)
Theorem C2_reentrancy_lock (s : State) (self amount : Z) :
  reachable s ->
  locked s = false /\
  (forall a inner,
     amount <= balance s self ->
     let m := safeWithdraw (run self (Call (safeWithdraw_ a) inner (fun _ => Return)))
                self amount in
     calls m s = [(safeWithdraw_ a, Some (Error "Reentrant call detected"))] /\
     outcome m s = Ok (tt, completed self amount (at_interaction self amount s))) /\
  (forall r,
     let m := safeWithdraw (run self r) self amount in
     Forall refused (calls m s) /\
     locked (commit m s) = false /\
     (amount <= balance s self ->
      outcome m s =
        match outcome (run self r) (at_interaction self amount s) with
        | Ok (_, s1) => Ok (tt, completed self amount s1)
        | Err _ => Err (Error "Transfer failed")
        end) /\
     (forall caller amount',
        amount' <= balance (commit m s) caller ->
        outcome (safeWithdraw (run caller Return) caller amount') (commit m s) =
          Ok (tt, completed caller amount'
                    (at_interaction caller amount' (commit m s))))).
Proof.
  intros Hreach. pose proof (reachable_unlocked s Hreach) as Hl.
  pose proof (reachable_solvent s Hreach) as Hsolv.
  split; [assumption | split].
  - intros a inner Hbal m. subst m. unfold calls, outcome.
    rewrite safeWithdraw_unlocked by eauto using solvent_enough.
    rewrite run_call. cbn [dispatch].
    rewrite safeWithdraw_locked by reflexivity. cbn. split; reflexivity.
  - intros r m.
    assert (Hst : stable s (commit m s)).
    { apply commit_stable. intros t x s'. apply safeWithdraw_stable, run_stable. }
    assert (Hafter : locked (commit m s) = false).
    { destruct Hst as [Hlock _]. congruence. }
    split; [| split; [| split]].
    + by apply safeWithdraw_calls_refused.
    + assumption.
    + intros Hbal. subst m. unfold outcome.
      rewrite safeWithdraw_unlocked by eauto using solvent_enough.
      by destruct (run self r (at_interaction self amount s)) as [t [[[] s1]|e]].
    + intros caller amount' Hbal. unfold outcome.
      rewrite safeWithdraw_accepted; [reflexivity | assumption | assumption |].
      eapply solvent_enough; [| eassumption].
      by eapply stable_solvent.
Qed.

Lemma C2_reentrancy_lock_witness :
  let m := safeWithdraw (run 7 (Call (safeWithdraw_ 40) Return (fun _ => Return))) 7 40 in
  locked pitfalls_funded = false /\
  calls m pitfalls_funded = [(safeWithdraw_ 40, Some (Error "Reentrant call detected"))] /\
  locked (commit m pitfalls_funded) = false /\
  balance (commit m pitfalls_funded) 7 = 60 /\
  exists s', outcome (safeWithdraw (run 7 Return) 7 60) (commit m pitfalls_funded)
             = Ok (tt, s').
Proof.
  intros m.
  destruct (C2_reentrancy_lock pitfalls_funded 7 40 pitfalls_funded_reachable)
    as [Hfree [Hreenter Hany]].
  destruct (Hreenter 40%N Return) as [Hcalls Hout]; [by vm_compute |].
  destruct (Hany (Call (safeWithdraw_ 40) Return (fun _ => Return)))
    as [_ [Hafter [_ Hnext]]].
  split; [exact Hfree | split; [exact Hcalls | split; [exact Hafter | split]]].
  - vm_compute. reflexivity.
  - eexists. apply (Hnext 7 60); by vm_compute.
Defined.

(** C3: [safeWithdraw] hands control to the recipient only after the
    decrement: whatever the recipient's code, it runs on the storage in
    which [balances[caller]] is already lower by the amount, and that is
    the balance it reads. *)
Theorem C3_effects_before_interaction (s : State) (caller amount : Z) :
  reachable s -> amount <= balance s caller ->
  balance (at_interaction caller amount s) caller = balance s caller - amount /\
  (forall code : M unit,
     safeWithdraw code caller amount s =
       match code (at_interaction caller amount s) with
       | (t, Ok (_, s1)) => (t, Ok (tt, completed caller amount s1))
       | (t, Err _) => (t, Err (Error "Transfer failed"))
       end) /\
  (exists v, view_balances v caller = balance s caller - amount /\
     forall k, safeWithdraw (run caller (Read k)) caller amount s =
               safeWithdraw (run caller (k v)) caller amount s).
Proof.
  intros Hreach Hbal. pose proof (reachable_unlocked s Hreach) as Hl.
  pose proof (solvent_enough s caller amount (reachable_solvent s Hreach) Hbal) as Heth.
  assert (Hdec : balance (at_interaction caller amount s) caller
                 = balance s caller - amount).
  { unfold at_interaction, balance. cbn. by rewrite lookup_insert_eq. }
  split; [exact Hdec | split].
  - intros code. by apply safeWithdraw_unlocked.
  - exists (view (at_interaction caller amount s)). split; [exact Hdec |].
    intros k. rewrite !safeWithdraw_unlocked by assumption.
    cbn [run]. unfold bind, gets.
    by destruct (run caller (k (view (at_interaction caller amount s)))
                   (at_interaction caller amount s)) as [t [[[] s1]|e]].
Qed.

Lemma C3_effects_before_interaction_witness :
  balance (at_interaction 7 40 pitfalls_funded) 7 = 60 /\
  outcome (safeWithdraw
             (run 7 (Read (fun v => if view_balances v 7 =? 60 then Return else Revert)))
             7 40) pitfalls_funded
  = Ok (tt, completed 7 40 (at_interaction 7 40 pitfalls_funded)).
Proof.
  destruct (C3_effects_before_interaction pitfalls_funded 7 40
              pitfalls_funded_reachable)
    as [Hdec [Hcode _]]; [by vm_compute |].
  split; [exact Hdec |].
  unfold outcome. rewrite Hcode. vm_compute. reflexivity.
Defined.

(** C4: when the recipient of [safeWithdraw]'s value transfer reverts,
    the call fails with "Transfer failed" and the storage is rolled back:
    the caller's balance is the one before the decrement. *)
Theorem C4_transfer_failed (s : State) (caller amount : Z) (code : M unit) :
  reachable s -> amount <= balance s caller ->
  (exists e, outcome code (at_interaction caller amount s) = Err e) ->
  outcome (safeWithdraw code caller amount) s = Err (Error "Transfer failed") /\
  commit (safeWithdraw code caller amount) s = s /\
  balance (commit (safeWithdraw code caller amount) s) caller = balance s caller.
Proof.
  intros Hreach Hbal [e He]. pose proof (reachable_unlocked s Hreach) as Hl.
  pose proof (solvent_enough s caller amount (reachable_solvent s Hreach) Hbal) as Heth.
  assert (Hout : outcome (safeWithdraw code caller amount) s
                 = Err (Error "Transfer failed")).
  { unfold outcome in *. rewrite safeWithdraw_unlocked by assumption.
    destruct (code (at_interaction caller amount s)) as [t [[[] s1]|e']];
      [discriminate | reflexivity]. }
  assert (Hsame : commit (safeWithdraw code caller amount) s = s).
  { unfold commit, outcome in *. by rewrite Hout. }
  split; [exact Hout | split; [exact Hsame | by rewrite Hsame]].
Qed.

Lemma C4_transfer_failed_witness :
  outcome (safeWithdraw (run 7 Revert) 7 20) pitfalls_funded
    = Err (Error "Transfer failed") /\
  balance (commit (safeWithdraw (run 7 Revert) 7 20) pitfalls_funded) 7 = 100.
Proof.
  destruct (C4_transfer_failed pitfalls_funded 7 20 (run 7 Revert)
              pitfalls_funded_reachable)
    as [Hout [_ Hbal]]; [by vm_compute | |].
  - eexists. vm_compute. reflexivity.
  - split; [exact Hout |]. rewrite Hbal. vm_compute. reflexivity.
Defined.

(** C7: [Coin.mint] called by anyone but the minter, and
    [safeChangeOwner] called by anyone but the owner, revert with the
    not-authorised reason of their [require] and change nothing. *)
Theorem C7_authorization :
  (forall (s : Coin.State) (caller receiver amount : Z),
     caller <> Coin.minter s ->
     outcome (Coin.mint caller receiver amount) s
       = Err (Error "Only the minter can create new coins") /\
     commit (Coin.mint caller receiver amount) s = s) /\
  (forall (s : State) (caller newOwner : Z),
     caller <> owner s ->
     outcome (safeChangeOwner caller newOwner) s = Err (Error "Not the owner") /\
     commit (safeChangeOwner caller newOwner) s = s).
Proof.
  split.
  - intros s caller receiver amount Hne.
    unfold outcome, commit. rewrite mint_not_minter by assumption. by cbn.
  - intros s caller newOwner Hne.
    unfold safeChangeOwner, onlyOwner. unfold_monad. cbn.
    destruct (Z.eqb_spec caller (owner s)); [contradiction | by cbn].
Qed.

Lemma C7_authorization_witness :
  outcome (Coin.mint 3 4 10) coin_after_send
    = Err (Error "Only the minter can create new coins") /\
  owner (commit (safeChangeOwner 7 7) pitfalls_funded) = 1.
Proof.
  destruct C7_authorization as [Hmint Howner]. split.
  - apply (Hmint coin_after_send 3 4 10). by vm_compute.
  - destruct (Howner pitfalls_funded 7 7) as [_ Hsame]; [by vm_compute |].
    rewrite Hsame. reflexivity.
Defined.

(** C9: [unsafeChangeOwner] succeeds for every caller, owner or not, and
    makes the given address the owner, touching nothing else; a caller
    that [safeChangeOwner] turns away changes the owner through it all
    the same. *)
Theorem C9_unsafeChangeOwner (s : State) (caller newOwner : Z) :
  outcome (unsafeChangeOwner caller newOwner) s = Ok (tt, set_owner newOwner s) /\
  owner (commit (unsafeChangeOwner caller newOwner) s) = newOwner /\
  balances (commit (unsafeChangeOwner caller newOwner) s) = balances s /\
  locked (commit (unsafeChangeOwner caller newOwner) s) = locked s /\
  this_balance (commit (unsafeChangeOwner caller newOwner) s) = this_balance s /\
  (caller <> owner s ->
   outcome (safeChangeOwner caller newOwner) s = Err (Error "Not the owner") /\
   owner (commit (safeChangeOwner caller newOwner) s) = owner s).
Proof.
  repeat split.
  - unfold safeChangeOwner, onlyOwner. unfold_monad. cbn.
    destruct (Z.eqb_spec caller (owner s)); [contradiction | reflexivity].
  - unfold safeChangeOwner, onlyOwner. unfold_monad. cbn.
    destruct (Z.eqb_spec caller (owner s)); [contradiction | reflexivity].
Qed.

Lemma C9_unsafeChangeOwner_witness :
  owner pitfalls_funded = 1 /\
  owner (commit (unsafeChangeOwner 7 7) pitfalls_funded) = 7 /\
  owner (commit (safeChangeOwner 7 7) pitfalls_funded) = 1.
Proof.
  destruct (C9_unsafeChangeOwner pitfalls_funded 7 7)
    as (_ & Hunsafe & _ & _ & _ & Hsafe).
  split; [reflexivity | split; [exact Hunsafe |]].
  destruct Hsafe as [_ Hsame]; [by vm_compute |]. rewrite Hsame. reflexivity.
Defined.


End SecurityPitfallsClaims.


(** * Further properties *)

(** ** SecurityPitfalls: deposits, withdrawals and the adders *)

Section SecurityPitfallsMore.
Import SecurityPitfalls.

(** X1: the contract always holds at least the ether it has recorded:
    between transactions the sum of all balance entries is at most
    [getContractBalance()] and every entry lies between zero and it,
    whatever re-entrant code the accounts run, through whatever other
    accounts, and whatever ether is sent to the contract without a call;
    and no call, successful or reverted, lowers the ether held beyond the
    recorded sum. *)
Theorem pitfalls_solvency (s : State) :
  reachable s ->
  sum_balances (balances s) <= getContractBalance s /\
  (forall a, 0 <= balance s a <= getContractBalance s) /\
  (forall sender r c,
     surplus s <= surplus (commit (dispatch (run sender r) sender c) s)).
Proof.
  intros Hreach. pose proof (reachable_solvent s Hreach) as Hsolv.
  split; [apply Hsolv | split].
  - intros a. split; [apply Hsolv |].
    unfold getContractBalance. apply (solvent_enough s a (balance s a) Hsolv). lia.
  - intros sender r c. apply (reachable_stable s sender r c).
Qed.

Lemma pitfalls_solvency_witness :
  let s := commit (forced 5) pitfalls_funded in
  sum_balances (balances s) <= getContractBalance s /\
  0 <= balance s 7 <= getContractBalance s.
Proof.
  intros s.
  destruct (pitfalls_solvency s (reach_forced _ 5 pitfalls_funded_reachable))
    as (Hsum & Hall & _).
  split; [exact Hsum | apply Hall].
Defined.

(** X2: the balance recorded for an account changes only in calls that
    account makes: a message call from another account, successful or
    reverted, whose code never has that account call the contract, leaves
    it as it was. *)
Theorem pitfalls_isolation (s : State) (self : Z) (r : recipient) (c : call) (a : Z) :
  a <> self -> avoids a r ->
  balance (commit (dispatch (run self r) self c) s) a = balance s a.
Proof.
  intros Hne Hav. unfold balance, commit.
  destruct (dispatch (run self r) self c s) as [t [[[] s']|e]] eqn:Hd;
    cbn; [| reflexivity].
  f_equal. eapply dispatch_untouched; [| | exact Hd]; [congruence |].
  apply run_untouched; [congruence | exact Hav].
Qed.

Lemma pitfalls_isolation_witness :
  balance (commit (dispatch (run 7 (Call (unsafeWithdraw_ 60) Return (fun _ => Return)))
                     7 (safeWithdraw_ 40)) pitfalls_funded) 8 = 100.
Proof.
  rewrite (pitfalls_isolation pitfalls_funded 7 _ _ 8);
    [by vm_compute | lia | cbn; auto].
Defined.

(** The account's own call, made on behalf of the code that is being
    paid, does change its balance. *)
Example helper_deposit_changes_balance :
  balance (commit (dispatch (run 7 (CallAs 8 (deposit_ 5) Return (fun _ => Return)))
                     7 (unsafeWithdraw_ 40)) pitfalls_funded) 8 = 105.
Proof. by vm_compute. Qed.

(** X3: on unsigned arguments [safeAdd] and [unsafeAdd] are the same
    function: both return the sum when it fits in a uint256 and revert
    with the arithmetic panic when it does not; the "Addition overflow"
    revert of [safeAdd] is never reached. *)
Theorem adders_agree (a b : Z) (s : State) :
  0 <= b ->
  safeAdd a b s = unsafeAdd a b s /\
  (a + b <= UINT256_MAX -> outcome (safeAdd a b) s = Ok (a + b, s)) /\
  (UINT256_MAX < a + b -> outcome (safeAdd a b) s = Err (Panic 17)) /\
  outcome (safeAdd a b) s <> Err (Error "Addition overflow").
Proof.
  intros Hb. unfold safeAdd, unsafeAdd. unfold_monad.
  repeat split; zcases; try reflexivity; discriminate.
Qed.

Lemma adders_agree_witness :
  outcome (safeAdd 2 3) pitfalls_funded = Ok (5, pitfalls_funded) /\
  outcome (safeAdd UINT256_MAX 1) pitfalls_funded = Err (Panic 17).
Proof.
  split.
  - apply (adders_agree 2 3 pitfalls_funded); by vm_compute.
  - apply (adders_agree UINT256_MAX 1 pitfalls_funded); by vm_compute.
Defined.

(** The effect of a deposit that fits. *)
Lemma deposit_fits (sender value : Z) (s : State) :
  balance s sender + value <= UINT256_MAX ->
  deposit sender value s =
    ([], Ok (tt, mkState (owner s)
                   (<[sender := balance s sender + value]> (balances s))
                   (locked s) (this_balance s + value)
                   (log s ++ [Deposit sender value]))).
Proof.
  intros Hfit. unfold deposit, credit, emit, balance in *. unfold_monad.
  zcases. reflexivity.
Qed.

(** X4: a deposit followed by a withdrawal of the same amount, paid to an
    account that accepts it, leaves every recorded balance and the
    contract's ether as they were, with the lock free. *)
Theorem deposit_withdraw_round_trip (s : State) (sender : Z) (value : N) :
  reachable s ->
  balance s sender + Z.of_N value <= UINT256_MAX ->
  let s1 := commit (dispatch (run sender Return) sender (deposit_ value)) s in
  let s2 := commit (dispatch (run sender Return) sender (safeWithdraw_ value)) s1 in
  balance s1 sender = balance s sender + Z.of_N value /\
  getContractBalance s1 = getContractBalance s + Z.of_N value /\
  (forall a, balance s2 a = balance s a) /\
  getContractBalance s2 = getContractBalance s /\
  locked s2 = false /\
  owner s2 = owner s.
Proof.
  intros Hreach Hfit s1 s2.
  assert (Hs1 : s1 = mkState (owner s)
                   (<[sender := balance s sender + Z.of_N value]> (balances s))
                   (locked s) (this_balance s + Z.of_N value)
                   (log s ++ [Deposit sender (Z.of_N value)])).
  { subst s1. unfold commit. cbn [dispatch]. by rewrite deposit_fits. }
  assert (Hreach1 : reachable s1) by (subst s1; by apply reach_call).
  assert (Hb1 : balance s1 sender = balance s sender + Z.of_N value).
  { rewrite Hs1. unfold balance. cbn. by rewrite lookup_insert_eq. }
  assert (Hs2 : s2 = completed sender (Z.of_N value)
                       (at_interaction sender (Z.of_N value) s1)).
  { subst s2. unfold commit. cbn [dispatch].
    rewrite safeWithdraw_accepted; [reflexivity | | |].
    - by apply reachable_unlocked.
    - pose proof (proj2 (reachable_solvent s Hreach) sender). lia.
    - apply (solvent_enough s1 sender); [by apply reachable_solvent |].
      pose proof (proj2 (reachable_solvent s Hreach) sender). lia. }
  split; [exact Hb1 | split; [by rewrite Hs1 | split; [| split; [| split]]]].
  - intros a. rewrite Hs2. unfold completed, at_interaction, balance. cbn.
    rewrite balance_insert. case_decide.
    + subst a. fold (balance s1 sender). rewrite Hb1. unfold balance. lia.
    + rewrite Hs1. cbn. by rewrite lookup_insert_ne.
  - rewrite Hs2, Hs1. unfold getContractBalance. cbn. lia.
  - by rewrite Hs2.
  - by rewrite Hs2, Hs1.
Qed.

Lemma deposit_withdraw_round_trip_witness :
  let s1 := commit (dispatch (run 9 Return) 9 (deposit_ 25)) pitfalls_funded in
  let s2 := commit (dispatch (run 9 Return) 9 (safeWithdraw_ 25)) s1 in
  balance s1 9 = 25 /\ balance s2 9 = 0 /\ getContractBalance s2 = 200.
Proof.
  intros s1 s2.
  destruct (deposit_withdraw_round_trip pitfalls_funded 9 25 pitfalls_funded_reachable)
    as (Hb1 & _ & Hb2 & Heth & _); [by vm_compute |].
  fold s1 in Hb1. fold s1 s2 in Hb2, Heth.
  split; [rewrite Hb1; by vm_compute | split].
  - rewrite Hb2. by vm_compute.
  - rewrite Heth. by vm_compute.
Defined.

(** X5: the guard covers [safeWithdraw] only. While [safeWithdraw] holds
    the lock, a recipient that calls [unsafeWithdraw] for an amount within
    what is left of its balance is served: both payments go out and both
    are deducted. *)
Theorem guard_covers_safeWithdraw_only (s : State) (self amount : Z) (amount' : N) :
  reachable s ->
  amount + Z.of_N amount' <= balance s self ->
  let m := safeWithdraw
             (run self (Call (unsafeWithdraw_ amount') Return (fun _ => Return)))
             self amount in
  calls m s = [(unsafeWithdraw_ amount', None)] /\
  exists s', outcome m s = Ok (tt, s') /\
    balance s' self = balance s self - amount - Z.of_N amount' /\
    getContractBalance s' = getContractBalance s - amount - Z.of_N amount' /\
    locked s' = false.
Proof.
  intros Hreach Hsum m. subst m.
  pose proof (reachable_unlocked s Hreach) as Hl.
  pose proof (reachable_solvent s Hreach) as Hsolv.
  pose proof (solvent_enough s self _ Hsolv Hsum) as Heth.
  unfold calls, outcome.
  rewrite safeWithdraw_unlocked; [| assumption | lia | lia].
  rewrite run_call. cbn [dispatch].
  rewrite unsafeWithdraw_enough.
  - unfold at_unsafe_interaction, at_interaction, balance in *. cbn.
    rewrite !lookup_insert_eq. cbn. zcases.
    split; [reflexivity |]. eexists. split; [reflexivity |].
    unfold getContractBalance. cbn. rewrite lookup_insert_eq. cbn.
    repeat split; lia.
  - unfold at_interaction, balance in *. cbn. rewrite lookup_insert_eq. cbn. lia.
  - unfold at_interaction. cbn. lia.
Qed.

Lemma guard_covers_safeWithdraw_only_witness :
  let m := safeWithdraw (run 7 (Call (unsafeWithdraw_ 60) Return (fun _ => Return)))
             7 40 in
  calls m pitfalls_funded = [(unsafeWithdraw_ 60, None)] /\
  balance (commit m pitfalls_funded) 7 = 0.
Proof.
  intros m.
  destruct (guard_covers_safeWithdraw_only pitfalls_funded 7 40 60
              pitfalls_funded_reachable) as [Hcalls _]; [by vm_compute |].
  split; [exact Hcalls | by vm_compute].
Defined.
End SecurityPitfallsMore.

(** ** Coin: what moves and what is created *)

Section CoinMore.
Import Coin.

(** X6: no call changes the minter; a call from anyone but the minter
    leaves the total of all balances as it was; and no call lowers that
    total. *)
Theorem coin_supply (s : State) (sender : Z) (c : call) :
  minter (commit (dispatch sender c) s) = minter s /\
  (sender <> minter s ->
   sum_balances (balances (commit (dispatch sender c) s)) = sum_balances (balances s)) /\
  sum_balances (balances s) <= sum_balances (balances (commit (dispatch sender c) s)).
Proof.
  destruct c as [receiver amount|receiver amount]; cbn [dispatch];
    unfold mint, send, debit, credit, emit, balance; unfold_monad;
    zcases; repeat split; try reflexivity; try lia; try contradiction;
    rewrite ?sum_balances_insert; try lia.
Qed.

Lemma coin_supply_witness :
  sum_balances (balances (commit (dispatch 2 (send_ 3 50)) coin_after_send))
  = sum_balances (balances coin_after_send).
Proof.
  apply (coin_supply coin_after_send 2 (send_ 3 50)). by vm_compute.
Defined.

(** X7: a [send] within balance to another account either moves exactly
    the amount, touching no third balance and logging one [Sent] event, or,
    when the receiver's balance would leave the uint256 range, reverts
    with the arithmetic panic and moves nothing. *)
Theorem coin_send_moves (s : State) (sender receiver amount : Z) :
  sender <> receiver -> amount <= balance s sender ->
  (balance s receiver + amount <= UINT256_MAX ->
   exists s', outcome (send sender receiver amount) s = Ok (tt, s') /\
     balance s' sender = balance s sender - amount /\
     balance s' receiver = balance s receiver + amount /\
     (forall a, a <> sender -> a <> receiver -> balance s' a = balance s a) /\
     log s' = log s ++ [Sent sender receiver amount]) /\
  (UINT256_MAX < balance s receiver + amount ->
   outcome (send sender receiver amount) s = Err (Panic 17) /\
   commit (send sender receiver amount) s = s).
Proof.
  intros Hne Hbal. unfold send, debit, credit, emit, balance in *. unfold_monad.
  split; intros Hfit; zcases.
  - eexists. split; [reflexivity |]. cbn.
    rewrite lookup_insert_ne, !lookup_insert_eq by congruence.
    repeat split; try reflexivity.
    intros a Ha1 Ha2. by rewrite !lookup_insert_ne by congruence.
  - split; reflexivity.
Qed.

Lemma coin_send_moves_witness :
  exists s', outcome (send 2 3 20) coin_after_send = Ok (tt, s') /\
             balance s' 2 = 50 /\ balance s' 3 = 50.
Proof.
  destruct (coin_send_moves coin_after_send 2 3 20) as [Hok _];
    [by vm_compute | by vm_compute |].
  destruct Hok as (s' & Hout & H2 & H3 & _); [by vm_compute |].
  exists s'. split; [exact Hout |]. rewrite H2, H3. split; by vm_compute.
Defined.

(** X8: a [mint] by the minter either adds exactly the amount to the
    receiver's balance and touches no other, or, when that balance would
    leave the uint256 range, reverts with the arithmetic panic. *)
Theorem coin_mint_adds (s : State) (receiver amount : Z) :
  (balance s receiver + amount <= UINT256_MAX ->
   exists s', outcome (mint (minter s) receiver amount) s = Ok (tt, s') /\
     balance s' receiver = balance s receiver + amount /\
     (forall a, a <> receiver -> balance s' a = balance s a) /\
     log s' = log s) /\
  (UINT256_MAX < balance s receiver + amount ->
   outcome (mint (minter s) receiver amount) s = Err (Panic 17) /\
   commit (mint (minter s) receiver amount) s = s).
Proof.
  unfold mint, credit, balance. unfold_monad.
  split; intros Hfit; zcases.
  - eexists. split; [reflexivity |]. cbn. rewrite lookup_insert_eq.
    repeat split; try reflexivity.
    intros a Ha. by rewrite lookup_insert_ne by congruence.
  - split; reflexivity.
Qed.

Lemma coin_mint_adds_witness :
  (exists s', outcome (mint 1 3 5) coin_after_send = Ok (tt, s') /\ balance s' 3 = 35) /\
  outcome (mint 1 3 UINT256_MAX) coin_after_send = Err (Panic 17).
Proof.
  split.
  - destruct (coin_mint_adds coin_after_send 3 5) as [Hok _].
    destruct Hok as (s' & Hout & H3 & _); [by vm_compute |].
    exists s'. split; [exact Hout |]. rewrite H3. by vm_compute.
  - apply (coin_mint_adds coin_after_send 3 UINT256_MAX). by vm_compute.
Defined.
End CoinMore.

(** ** SimpleCoin: overflow checks and conservation *)

Section SimpleCoinMore.
Import SimpleCoin.

(** X9: the "Overflow detected" requirement of [transfer] and [mint] is
    dead code under pragma ^0.8.0: for an unsigned value neither function
    ever reverts with that reason (an overflow surfaces as the arithmetic
    panic of the addition inside the requirement). *)
Theorem simplecoin_overflow_reason_dead (s : State) (sender _to _value : Z) :
  0 <= _value ->
  outcome (transfer sender _to _value) s <> Err (Error "Overflow detected") /\
  outcome (mint sender _to _value) s <> Err (Error "Overflow detected") /\
  (balance s sender >= _value -> UINT256_MAX < balance s _to + _value ->
   outcome (transfer sender _to _value) s = Err (Panic 17)).
Proof.
  intros Hv. unfold transfer, mint, debit, credit, emit, balance. unfold_monad.
  repeat split; try intros ? ?; zcases; try discriminate; try reflexivity.
Qed.

Lemma simplecoin_overflow_reason_dead_witness :
  outcome (transfer 1 1 (10 ^ 18)) simplecoin_full = Err (Panic 17).
Proof.
  apply (simplecoin_overflow_reason_dead simplecoin_full 1 1 (10 ^ 18)); by vm_compute.
Defined.

(** X10: a successful [transfer] returns [true], keeps the owner and the
    sum of all balances, and between two different accounts moves exactly
    the value. *)
Theorem simplecoin_transfer_conserves (s s' : State) (sender _to _value : Z) (b : bool) :
  outcome (transfer sender _to _value) s = Ok (b, s') ->
  b = true /\
  owner s' = owner s /\
  sum_balances (balanceOf s') = sum_balances (balanceOf s) /\
  (sender <> _to ->
   balance s' sender = balance s sender - _value /\
   balance s' _to = balance s _to + _value) /\
  (forall a, a <> sender -> a <> _to -> balance s' a = balance s a).
Proof.
  unfold transfer, debit, credit, emit, balance. unfold_monad.
  zcases; try discriminate. intros [= <- <-]. cbn.
  split; [reflexivity | split; [reflexivity | split; [| split]]].
  - rewrite !sum_balances_insert. lia.
  - intros Hne. rewrite !balance_insert.
    repeat case_decide; try congruence. split; reflexivity.
  - intros a Ha1 Ha2. by rewrite !lookup_insert_ne by congruence.
Qed.

Lemma simplecoin_transfer_conserves_witness :
  exists s', outcome (transfer 1 2 30) simplecoin_deployed = Ok (true, s') /\
             sum_balances (balanceOf s') = sum_balances (balanceOf simplecoin_deployed).
Proof.
  eexists. split; [vm_compute; reflexivity |].
  eapply (simplecoin_transfer_conserves simplecoin_deployed _ 1 2 30 true).
  vm_compute. reflexivity.
Defined.
End SimpleCoinMore.

(** ** TokenBase: the zero address, bounds and round trips *)

Section TokenBaseMore.
Import TokenBase.

Lemma reachable_bounds (s : State) :
  reachable s -> balance s 0 = 0 /\ _totalSupply s <= UINT256_MAX.
Proof.
  induction 1 as [|o s Hreach [Hzero Hmax]].
  - split; [reflexivity | apply UINT256_MAX_pos].
  - destruct o as [account amount|from to amount|account amount]; cbn [step];
      unfold _mint, _transfer, _burn, debit, credit, emit, balance in *;
      unfold_monad; zcases; try (split; assumption); split; try assumption;
      rewrite ?lookup_insert_ne by congruence; try assumption; lia.
Qed.

Lemma balance_le_supply (s : State) (a : Z) :
  reachable s -> 0 <= balance s a <= _totalSupply s.
Proof.
  intros Hreach. destruct (reachable_inv s Hreach) as [Hnn Hsum].
  split; [apply Hnn |]. rewrite Hsum. unfold balance in *.
  rewrite (sum_balances_split (_balances s) a).
  assert (0 <= sum_balances (delete a (_balances s))); [| lia].
  apply sum_balances_nonneg. intros b. destruct (decide (a = b)) as [<-|Hne].
  - by rewrite lookup_delete_eq.
  - rewrite lookup_delete_ne by assumption. apply Hnn.
Qed.

(** X11: the zero address never holds tokens: after any sequence of
    [_mint], [_transfer] and [_burn] calls its balance is zero. *)
Theorem tokenbase_zero_address_empty (s : State) :
  reachable s -> balanceOf s 0 = 0.
Proof. intros Hreach. apply (reachable_bounds s Hreach). Qed.

Lemma tokenbase_zero_address_empty_witness : balanceOf tokenbase_minted 0 = 0.
Proof. apply tokenbase_zero_address_empty, tokenbase_minted_reachable. Defined.

(** X12: no account ever holds more than the total supply, and the total
    supply never leaves the uint256 range. *)
Theorem tokenbase_balance_within_supply (s : State) (a : Z) :
  reachable s ->
  0 <= balanceOf s a <= totalSupply s /\ totalSupply s <= UINT256_MAX.
Proof.
  intros Hreach. split; [by apply balance_le_supply | apply (reachable_bounds s Hreach)].
Qed.

Lemma tokenbase_balance_within_supply_witness :
  0 <= balanceOf tokenbase_minted 1 <= totalSupply tokenbase_minted.
Proof. apply (tokenbase_balance_within_supply tokenbase_minted 1), tokenbase_minted_reachable. Defined.

Lemma two_balances_le_supply (s : State) (a b : Z) :
  reachable s -> a <> b -> balance s a + balance s b <= _totalSupply s.
Proof.
  intros Hreach Hne. destruct (reachable_inv s Hreach) as [Hnn Hsum].
  rewrite Hsum. unfold balance in *.
  rewrite (sum_balances_split (_balances s) a).
  rewrite (sum_balances_split (delete a (_balances s)) b).
  rewrite lookup_delete_ne by assumption.
  assert (0 <= sum_balances (delete b (delete a (_balances s)))); [| lia].
  apply sum_balances_nonneg. intros c.
  destruct (decide (b = c)) as [<-|Hbc]; [by rewrite lookup_delete_eq |].
  rewrite lookup_delete_ne by assumption.
  destruct (decide (a = c)) as [<-|Hac]; [by rewrite lookup_delete_eq |].
  rewrite lookup_delete_ne by assumption. apply Hnn.
Qed.

(** X13: between non-zero addresses a [_transfer] within the sender's
    balance always succeeds: the checked addition on the receiver's side
    cannot overflow. It moves exactly the amount, leaves every third
    balance and the total supply alone, and is a no-op on balances when
    sender and receiver coincide. *)
Theorem tokenbase_transfer_succeeds (s : State) (from to amount : Z) :
  reachable s -> from <> 0 -> to <> 0 -> 0 <= amount <= balance s from ->
  exists s', outcome (_transfer from to amount) s = Ok (true, s') /\
    totalSupply s' = totalSupply s /\
    (from <> to -> balance s' from = balance s from - amount /\
                   balance s' to = balance s to + amount) /\
    (from = to -> balance s' from = balance s from) /\
    (forall a, a <> from -> a <> to -> balance s' a = balance s a) /\
    log s' = log s ++ [Transfer from to amount].
Proof.
  intros Hreach Hfrom Hto [Hlo Hbal].
  destruct (reachable_bounds s Hreach) as [_ Hmax].
  pose proof (balance_le_supply s from Hreach) as Hf.
  assert (Hroom : balance (set_balance from (balance s from - amount) s) to + amount
                  <= UINT256_MAX).
  { unfold balance at 1. cbn. rewrite balance_insert. case_decide.
    - unfold balance in *. lia.
    - pose proof (two_balances_le_supply s from to Hreach ltac:(assumption)).
      unfold balance in *. lia. }
  unfold set_balance, balance in *. cbn in Hroom.
  unfold _transfer, debit, credit, emit, balance. unfold_monad. zcases.
  eexists. split; [reflexivity |]. unfold totalSupply, balance. cbn.
  rewrite !balance_insert.
  split; [reflexivity | split; [| split; [| split]]].
  - intros Hne. repeat case_decide; try congruence; split; reflexivity.
  - intros Heq. repeat case_decide; try congruence; lia.
  - intros a Ha1 Ha2. rewrite !balance_insert. repeat case_decide; subst; done.
  - reflexivity.
Qed.

Lemma tokenbase_transfer_succeeds_witness :
  exists s', outcome (_transfer 1 2 40) tokenbase_minted = Ok (true, s') /\
             balance s' 1 = 60 /\ balance s' 2 = 40.
Proof.
  destruct (tokenbase_transfer_succeeds tokenbase_minted 1 2 40
              tokenbase_minted_reachable) as (s' & Hout & _ & Hmove & _);
    [by vm_compute | by vm_compute | by vm_compute |].
  destruct Hmove as [H1 H2]; [by vm_compute |].
  exists s'. split; [exact Hout |]. rewrite H1, H2. split; by vm_compute.
Defined.

(** X14: burning what was just minted undoes it: if [_mint] succeeds,
    the [_burn] of the same amount from the same account succeeds and
    brings every balance and the total supply back. *)
Theorem tokenbase_mint_burn_round_trip (s s1 : State) (account amount : Z) :
  reachable s ->
  outcome (_mint account amount) s = Ok (tt, s1) ->
  exists s2, outcome (_burn account amount) s1 = Ok (tt, s2) /\
    (forall a, balance s2 a = balance s a) /\
    totalSupply s2 = totalSupply s.
Proof.
  intros Hreach. pose proof (balance_le_supply s account Hreach) as Hb.
  unfold _mint, credit, emit, totalSupply, balance in *. unfold_monad.
  zcases; try discriminate. intros [= <-].
  unfold _burn, debit, emit, balance. unfold_monad. zcases.
  eexists. split; [reflexivity |]. cbn. split; [| lia].
  intros a. rewrite !balance_insert. case_decide; [subst; lia | reflexivity].
Qed.

Lemma tokenbase_mint_burn_round_trip_witness :
  exists s2, outcome (_burn 1 100) tokenbase_minted = Ok (tt, s2) /\
             totalSupply s2 = 0.
Proof.
  destruct (tokenbase_mint_burn_round_trip fresh tokenbase_minted 1 100 reach_fresh)
    as (s2 & Hout & _ & Hts); [by vm_compute |].
  exists s2. split; [exact Hout |]. rewrite Hts. reflexivity.
Defined.
End TokenBaseMore.

(** ** SimpleStorage: events and counters *)

Section SimpleStorageMore.
Import SimpleStorage.

(** X15: the most recent [DataStored] event always carries the current
    stored value; while nothing has been logged the value is still the
    constructor's zero. *)
Theorem simplestorage_event_tracks_value (s : State) :
  reachable s ->
  match last_stored s with
  | Some v => get s = v
  | None => get s = 0 /\ log s = []
  end.
Proof.
  induction 1 as [|s sender c Hreach IH].
  - split; reflexivity.
  - destruct c as [v| |]; cbn [dispatch];
      unfold set, increment, decrement, emit; unfold_monad; zcases;
      try assumption; unfold last_stored; cbn; by rewrite last_snoc.
Qed.

Lemma simplestorage_event_tracks_value_witness :
  get (commit (dispatch 5 increment_) (commit (dispatch 4 (set_ 41)) constructor)) = 42.
Proof.
  pose proof (simplestorage_event_tracks_value
                (commit (dispatch 5 increment_) (commit (dispatch 4 (set_ 41)) constructor))
                (reach_call _ 5 increment_ (reach_call _ 4 (set_ 41) reach_deploy))) as H.
  exact H.
Defined.

Lemma increment_effect (s : State) (a : Z) :
  storedData s + 1 <= UINT256_MAX ->
  increment a s =
    ([], Ok (tt, mkState (storedData s + 1)
                   (log s ++ [DataStored a (storedData s + 1)]))).
Proof. intros Hfit. unfold increment, emit. unfold_monad. zcases. reflexivity. Qed.

Lemma decrement_effect (s : State) (a : Z) :
  0 < storedData s ->
  decrement a s =
    ([], Ok (tt, mkState (storedData s - 1)
                   (log s ++ [DataStored a (storedData s - 1)]))).
Proof. intros Hpos. unfold decrement, emit. unfold_monad. zcases. reflexivity. Qed.

(** X16: while the value stays inside the uint256 range, [increment]
    succeeds and adds one, [decrement] succeeds and takes one off, and in
    either order the two bring the value back; at the ends of the range
    they revert instead: [increment] at the maximum with the arithmetic
    panic, [decrement] at zero with "Cannot decrement below zero",
    leaving the storage as it was. *)
Theorem simplestorage_increment_decrement (s : State) (a b : Z) :
  0 <= get s <= UINT256_MAX ->
  (get s < UINT256_MAX ->
   exists s1 s2,
     outcome (increment a) s = Ok (tt, s1) /\ get s1 = get s + 1 /\
     outcome (decrement b) s1 = Ok (tt, s2) /\ get s2 = get s) /\
  (0 < get s ->
   exists s1 s2,
     outcome (decrement a) s = Ok (tt, s1) /\ get s1 = get s - 1 /\
     outcome (increment b) s1 = Ok (tt, s2) /\ get s2 = get s) /\
  (get s = UINT256_MAX ->
   outcome (increment a) s = Err (Panic 17) /\ commit (increment a) s = s) /\
  (get s = 0 ->
   outcome (decrement a) s = Err (Error "Cannot decrement below zero") /\
   commit (decrement a) s = s).
Proof.
  intros [Hlo Hhi]. unfold get in *.
  split; [| split; [| split]]; intros Hcase.
  - do 2 eexists. unfold outcome. rewrite increment_effect by lia. cbn [snd].
    split; [reflexivity | split; [reflexivity |]].
    rewrite decrement_effect by (cbn; lia). cbn.
    split; [reflexivity | cbn; lia].
  - do 2 eexists. unfold outcome. rewrite decrement_effect by lia. cbn [snd].
    split; [reflexivity | split; [reflexivity |]].
    rewrite increment_effect by (cbn; lia). cbn.
    split; [reflexivity | cbn; lia].
  - unfold increment, emit. unfold_monad. zcases. split; reflexivity.
  - unfold decrement, emit. unfold_monad. zcases. split; reflexivity.
Qed.

Lemma simplestorage_increment_decrement_witness :
  (exists s1 s2,
     outcome (increment 1) constructor = Ok (tt, s1) /\ get s1 = 1 /\
     outcome (decrement 2) s1 = Ok (tt, s2) /\ get s2 = 0) /\
  outcome (decrement 1) constructor = Err (Error "Cannot decrement below zero").
Proof.
  destruct (simplestorage_increment_decrement constructor 1 2) as (Hid & _ & _ & Hzero).
  - unfold UINT256_MAX. by vm_compute.
  - split; [| apply Hzero; reflexivity].
    destruct Hid as (s1 & s2 & H1 & H2 & H3 & H4); [by vm_compute |].
    exists s1, s2. split; [exact H1 | split; [| split; [exact H3 |]]].
    + rewrite H2. reflexivity.
    + rewrite H4. reflexivity.
Defined.
End SimpleStorageMore.

(** ** MyToken.integerToString: decimal numerals *)

Section IntegerToStringMore.
Import MyToken.

Lemma pow10_pos (k : nat) : 0 < 10 ^ Z.of_nat k.
Proof. apply Z.pow_pos_nonneg; lia. Qed.

Lemma pow10_succ (k : nat) : 10 ^ Z.of_nat (S k) = 10 * 10 ^ Z.of_nat k.
Proof. rewrite Nat2Z.inj_succ, Z.pow_succ_r by lia. reflexivity. Qed.

Lemma pow2_succ (k : nat) : 2 ^ Z.of_nat (S k) = 2 * 2 ^ Z.of_nat k.
Proof. rewrite Nat2Z.inj_succ, Z.pow_succ_r by lia. reflexivity. Qed.

(** The counting loop stops after as many rounds as [temp] has decimal
    digits, provided the gas covers its binary length. *)
Lemma count_digits_spec (n : nat) :
  forall (gas : nat) (temp digits : Z),
    (n <= gas)%nat -> 0 <= temp < 2 ^ Z.of_nat n ->
    0 <= digits -> digits + Z.of_nat n <= UINT256_MAX ->
    exists k : nat,
      count_digits gas temp digits = Some (Ok (digits + Z.of_nat k)) /\
      temp < 10 ^ Z.of_nat k /\
      (k <> 0%nat -> 10 ^ Z.of_nat (k - 1) <= temp).
Proof.
  induction n as [|n IH]; intros gas temp digits Hgas Htemp Hdig Hmax.
  - exists 0%nat. assert (temp = 0) by (cbn in Htemp; lia). subst temp.
    destruct gas; cbn; rewrite Z.add_0_r; repeat split; (lia || congruence).
  - destruct (Z.eqb_spec temp 0) as [->|Hnz].
    + exists 0%nat. destruct gas; cbn; rewrite Z.add_0_r; repeat split; (lia || congruence).
    + destruct gas as [|gas]; [lia |].
      rewrite pow2_succ in Htemp.
      destruct (IH gas (temp / 10) (digits + 1)) as (k & Hk & Hlt & Hge).
      * lia.
      * split; [apply Z.div_pos; lia |].
        apply Z.div_lt_upper_bound; lia.
      * lia.
      * lia.
      * exists (S k). cbn [count_digits].
        destruct (Z.eqb_spec temp 0) as [|_]; [contradiction |].
        destruct (Z.leb_spec (digits + 1) UINT256_MAX) as [_|]; [| lia].
        rewrite Hk. split; [do 2 f_equal; lia | split].
        -- rewrite pow10_succ.
           pose proof (Z.mul_succ_div_gt temp 10 ltac:(lia)). lia.
        -- intros _. replace (S k - 1)%nat with k by lia.
           destruct k as [|k]; [cbn; lia |].
           specialize (Hge ltac:(lia)). replace (S k - 1)%nat with k in Hge by lia.
           rewrite pow10_succ. pose proof (Z.mul_div_le temp 10 ltac:(lia)). lia.
Qed.

Lemma drop_insert_here {A} (l : list A) (i : nat) (x : A) :
  (i < length l)%nat -> drop i (<[i := x]> l) = x :: drop (S i) l.
Proof.
  revert i. induction l as [|y l IH]; intros [|i] Hi; cbn in *; try lia.
  - reflexivity.
  - apply IH. lia.
Qed.

(** The writing loop fills the first [k] places of the buffer with the
    [k] digits of the value. *)
Lemma fill_spec (k : nat) :
  forall (gas : nat) (v : Z) (buffer : bytes),
    (k <= gas)%nat -> 0 <= v < 10 ^ Z.of_nat k ->
    (k <> 0%nat -> 10 ^ Z.of_nat (k - 1) <= v) ->
    (k <= length buffer)%nat ->
    fill gas v (Z.of_nat k) buffer = Some (Ok (decimal k v ++ drop k buffer)).
Proof.
  induction k as [|k IH]; intros gas v buffer Hgas Hv Hge Hlen.
  - assert (v = 0) by (cbn in Hv; lia). subst v. destruct gas; reflexivity.
  - specialize (Hge ltac:(lia)). replace (S k - 1)%nat with k in Hge by lia.
    pose proof (pow10_pos k) as Hpos. rewrite pow10_succ in Hv.
    destruct gas as [|gas]; [lia |]. cbn [fill].
    destruct (Z.eqb_spec v 0) as [|_]; [lia |].
    destruct (Z.leb_spec 1 (Z.of_nat (S k))) as [_|]; [| lia].
    replace (Z.of_nat (S k) - 1) with (Z.of_nat k) by lia.
    destruct (Z.ltb_spec (Z.of_nat k) (Z.of_nat (length buffer))) as [_|]; [| lia].
    rewrite Nat2Z.id.
    pose proof (Z.mod_pos_bound v 10 ltac:(lia)) as Hmod.
    rewrite (Z.mod_small (48 + v mod 10) 256) by lia.
    rewrite IH.
    + rewrite drop_insert_here by lia. cbn [decimal].
      by rewrite <- app_assoc.
    + lia.
    + split; [apply Z.div_pos; lia | apply Z.div_lt_upper_bound; lia].
    + intros Hk. destruct k as [|k]; [congruence |].
      replace (S k - 1)%nat with k by lia. rewrite pow10_succ in Hge.
      apply Z.div_le_lower_bound; lia.
    + rewrite length_insert. lia.
Qed.

Lemma parse_snoc (b : bytes) (c : Z) : parse (b ++ [c]) = 10 * parse b + (c - 48).
Proof. unfold parse. by rewrite fold_left_app. Qed.

Lemma parse_decimal (k : nat) : forall v, parse (decimal k v) = v mod 10 ^ Z.of_nat k.
Proof.
  induction k as [|k IH]; intros v.
  - cbn. by rewrite Z.mod_1_r.
  - cbn [decimal]. rewrite parse_snoc, IH, pow10_succ.
    rewrite (Z.rem_mul_r v 10 (10 ^ Z.of_nat k)) by (pose proof (pow10_pos k); lia).
    lia.
Qed.

Lemma decimal_digits (k : nat) : forall v, Forall (fun c => 48 <= c <= 57) (decimal k v).
Proof.
  induction k as [|k IH]; intros v; cbn [decimal]; [constructor |].
  apply Forall_app. split; [apply IH |].
  constructor; [| constructor]. pose proof (Z.mod_pos_bound v 10 ltac:(lia)). lia.
Qed.

Lemma length_decimal (k : nat) : forall v, length (decimal k v) = k.
Proof.
  induction k as [|k IH]; intros v; cbn [decimal]; [reflexivity |].
  rewrite length_app, IH. cbn. lia.
Qed.

Lemma decimal_head (k : nat) :
  forall v, 10 ^ Z.of_nat k <= v < 10 ^ Z.of_nat (S k) ->
            exists c rest, decimal (S k) v = c :: rest /\ 49 <= c <= 57.
Proof.
  induction k as [|k IH]; intros v Hv.
  - cbn in *. exists (48 + v mod 10), []. split; [reflexivity |].
    rewrite Z.mod_small by lia. lia.
  - rewrite !pow10_succ in Hv. pose proof (pow10_pos k).
    destruct (IH (v / 10)) as (c & rest & Hd & Hc).
    + rewrite pow10_succ. split.
      * apply Z.div_le_lower_bound; lia.
      * apply Z.div_lt_upper_bound; lia.
    + exists c, (rest ++ [48 + v mod 10]). split; [| assumption].
      change (decimal (S (S k)) v) with (decimal (S k) (v / 10) ++ [48 + v mod 10]).
      by rewrite Hd.
Qed.

(** What the function returns for a positive uint256, given the gas. *)
Lemma integerToString_positive (gas : nat) (v : Z) :
  (256 <= gas)%nat -> 0 < v <= UINT256_MAX ->
  exists k : nat,
    integerToString gas v = Some (Ok (decimal (S k) v)) /\
    10 ^ Z.of_nat k <= v < 10 ^ Z.of_nat (S k).
Proof.
  intros Hgas Hv. unfold integerToString.
  destruct (Z.eqb_spec v 0) as [|_]; [lia |].
  destruct (count_digits_spec 256 gas v 0) as (k & Hk & Hlt & Hge).
  - assumption.
  - unfold UINT256_MAX in Hv. change (Z.of_nat 256) with 256. lia.
  - lia.
  - unfold UINT256_MAX. change (Z.of_nat 256) with 256. lia.
  - rewrite Z.add_0_l in Hk. rewrite Hk, Nat2Z.id.
    destruct k as [|k]; [cbn in Hlt; lia |].
    specialize (Hge ltac:(lia)). replace (S k - 1)%nat with k in Hge by lia.
    exists k. split; [| lia].
    assert (Hcount : (S k <= 256)%nat).
    { destruct (le_lt_dec (S k) 256) as [|Hbig]; [assumption | exfalso].
      assert (10 ^ 256 <= 10 ^ Z.of_nat k) by (apply Z.pow_le_mono_r; lia).
      unfold UINT256_MAX in Hv. lia. }
    rewrite fill_spec.
    + rewrite drop_ge by (rewrite length_replicate; lia). by rewrite app_nil_r.
    + lia.
    + lia.
    + intros _. by replace (S k - 1)%nat with k by lia.
    + rewrite length_replicate. lia.
Qed.

(** For every uint256 the function returns, its result reads back as the
    value and consists of decimal digits. *)
Lemma integerToString_reads_back (gas : nat) (v : Z) :
  (256 <= gas)%nat -> 0 <= v <= UINT256_MAX ->
  exists b, integerToString gas v = Some (Ok b) /\
            parse b = v /\ Forall (fun c => 48 <= c <= 57) b.
Proof.
  intros Hgas Hv. destruct (Z.eq_dec v 0) as [->|Hnz].
  - exists [48]. repeat split. repeat constructor; lia.
  - destruct (integerToString_positive gas v Hgas ltac:(lia)) as (k & Hk & Hrange).
    exists (decimal (S k) v). split; [exact Hk | split].
    + rewrite parse_decimal. apply Z.mod_small. lia.
    + apply decimal_digits.
Qed.

(** X17: with gas for 256 loop rounds, [integerToString] returns for
    every uint256 (it neither panics nor runs out), the result consists
    of the characters '0' to '9', and reading it as a decimal numeral
    gives the value back. *)
Theorem integerToString_round_trip (gas : nat) (v : Z) :
  (256 <= gas)%nat -> 0 <= v <= UINT256_MAX ->
  exists b, integerToString gas v = Some (Ok b) /\
            parse b = v /\ Forall (fun c => 48 <= c <= 57) b.
Proof. apply integerToString_reads_back. Qed.

Lemma integerToString_round_trip_witness :
  exists b, integerToString 256 1234 = Some (Ok b) /\ parse b = 1234.
Proof.
  destruct (integerToString_round_trip 256 1234) as (b & Hb & Hparse & _);
    [lia | unfold UINT256_MAX; lia |].
  exists b. split; assumption.
Defined.

(** X18: the numeral is canonical: zero is the single character '0', and
    a positive value starts with a non-zero digit and has exactly as many
    characters as it has decimal digits. *)
Theorem integerToString_canonical (gas : nat) (v : Z) :
  (256 <= gas)%nat -> 0 <= v <= UINT256_MAX ->
  exists c rest,
    integerToString gas v = Some (Ok (c :: rest)) /\
    (v = 0 -> c = 48 /\ rest = []) /\
    (0 < v -> 49 <= c <= 57 /\
              10 ^ Z.of_nat (length rest) <= v < 10 ^ Z.of_nat (S (length rest))).
Proof.
  intros Hgas Hv. destruct (Z.eq_dec v 0) as [->|Hnz].
  - exists 48, []. split; [reflexivity | split; [by intros _ | lia]].
  - destruct (integerToString_positive gas v Hgas ltac:(lia)) as (k & Hk & Hrange).
    destruct (decimal_head k v Hrange) as (c & rest & Hd & Hc).
    exists c, rest. rewrite Hk, Hd. split; [reflexivity | split; [lia |]].
    intros _. split; [exact Hc |].
    assert (Hlen : length rest = k).
    { pose proof (length_decimal (S k) v) as Hl. rewrite Hd in Hl. cbn in Hl. lia. }
    by rewrite Hlen.
Qed.

Lemma integerToString_canonical_witness :
  integerToString 256 1234 = Some (Ok [49; 50; 51; 52]) /\
  integerToString 256 0 = Some (Ok [48]).
Proof.
  split.
  - destruct (integerToString_canonical 256 1234) as (c & rest & Hb & _);
      [lia | unfold UINT256_MAX; lia |].
    rewrite Hb. vm_compute in Hb. congruence.
  - destruct (integerToString_canonical 256 0) as (c & rest & Hb & Hzero & _);
      [lia | unfold UINT256_MAX; lia |].
    destruct Hzero as [-> ->]; [reflexivity | exact Hb].
Defined.

(** X19: different values never get the same string: on uint256 values
    [integerToString] is injective. *)
Theorem integerToString_injective (gas : nat) (v w : Z) :
  (256 <= gas)%nat -> 0 <= v <= UINT256_MAX -> 0 <= w <= UINT256_MAX ->
  v <> w -> integerToString gas v <> integerToString gas w.
Proof.
  intros Hgas Hv Hw Hne Heq.
  destruct (integerToString_reads_back gas v Hgas Hv) as (b & Hb & Hpb & _).
  destruct (integerToString_reads_back gas w Hgas Hw) as (b' & Hb' & Hpb' & _).
  rewrite Hb, Hb' in Heq. congruence.
Qed.

Lemma integerToString_injective_witness :
  integerToString 256 19 <> integerToString 256 190.
Proof.
  apply (integerToString_injective 256 19 190); [lia | | | lia];
    unfold UINT256_MAX; lia.
Defined.
End IntegerToStringMore.

(** ** TokenPool and AdminExtension *)

Lemma commit_of_ok {S W A : Type} (m : M S W A) (s s' : S) (t : list W) (x : A) :
  m s = (t, Ok (x, s')) -> commit m s = s'.
Proof. intros H. unfold commit. by rewrite H. Qed.

Section AdminExtensionMore.
Import AdminExtension.

(** Run an inherited function, or the recipient's code, where the
    function under study calls it. *)
Ltac run_inner :=
  match goal with
  | |- context [match ?c ?s with _ => _ end] =>
      let t := fresh "t" in let x := fresh "x" in let s' := fresh "s'" in
      let e := fresh "e" in let Hc := fresh "Hc" in
      destruct (c s) as [t [[x s']|e]] eqn:Hc
  end; cbn.

Lemma zero_kept_mint (b : TokenBase.State) (a v : Z) :
  TokenBase.balance b 0 = 0 -> TokenBase.balance (commit (TokenBase._mint a v) b) 0 = 0.
Proof.
  intros Hz. unfold TokenBase._mint, TokenBase.credit, TokenBase.emit,
    TokenBase.balance in *. unfold_monad. zcases; try assumption.
Qed.

Lemma zero_kept_burn (b : TokenBase.State) (a v : Z) :
  TokenBase.balance b 0 = 0 -> TokenBase.balance (commit (TokenBase._burn a v) b) 0 = 0.
Proof.
  intros Hz. unfold TokenBase._burn, TokenBase.debit, TokenBase.emit,
    TokenBase.balance in *. unfold_monad. zcases; try assumption.
Qed.

Lemma zero_kept_transfer (b : TokenBase.State) (from to v : Z) :
  TokenBase.balance b 0 = 0 ->
  TokenBase.balance (commit (TokenBase._transfer from to v) b) 0 = 0.
Proof.
  intros Hz. unfold TokenBase._transfer, TokenBase.debit, TokenBase.credit,
    TokenBase.emit, TokenBase.balance in *. unfold_monad. zcases; try assumption.
Qed.

Ltac split_steady := split; [| split; [| split; [| split]]].

Lemma steady_refl (s : State) : steady s s.
Proof. split_steady; auto. Qed.

Lemma steady_trans (s1 s2 s3 : State) : steady s1 s2 -> steady s2 s3 -> steady s1 s3.
Proof.
  intros (H1 & H2 & H3 & H4 & H5) (G1 & G2 & G3 & G4 & G5).
  split_steady; auto. congruence.
Qed.

(** Replacing the inherited ledger by one that keeps the invariants is a
    steady step. *)
Lemma steady_set_base (s : State) (b : TokenBase.State) :
  (TokenBase.ledger_inv (base s) -> TokenBase.ledger_inv b) ->
  (TokenBase.balance (base s) 0 = 0 -> TokenBase.balance b 0 = 0) ->
  steady s (set_base b s).
Proof. intros H1 H2. split_steady; auto. Qed.

Lemma lift_steady {A} (m : TokenBase.M A) (s s' : State) (t : list Empty_set) (x : A) :
  (forall b, TokenBase.ledger_inv b -> TokenBase.ledger_inv (commit m b)) ->
  (forall b, TokenBase.balance b 0 = 0 -> TokenBase.balance (commit m b) 0 = 0) ->
  lift m s = (t, Ok (x, s')) -> steady s s'.
Proof.
  intros Hinv Hzero. unfold lift.
  destruct (m (base s)) as [t0 [[a b]|e]] eqn:Hm; [| discriminate].
  intros [= <- <- <-]. apply commit_of_ok in Hm. subst b.
  apply steady_set_base; auto.
Qed.

Lemma lift_frame {A} (m : TokenBase.M A) (s s' : State) (t : list Empty_set) (x : A) :
  lift m s = (t, Ok (x, s')) -> s' = set_base (commit m (base s)) s /\ t = [].
Proof.
  unfold lift. destruct (m (base s)) as [t0 [[a b]|e]] eqn:Hm; [| discriminate].
  intros [= <- <- <-]. apply commit_of_ok in Hm. by subst b.
Qed.

Lemma lift_mint_steady (a v : Z) (s s' : State) (t : list Empty_set) (x : unit) :
  0 <= v -> lift (TokenBase._mint a v) s = (t, Ok (x, s')) -> steady s s'.
Proof.
  intros Hv. apply lift_steady.
  - intros b. by apply mint_inv.
  - intros b. apply zero_kept_mint.
Qed.

Lemma lift_burn_steady (a v : Z) (s s' : State) (t : list Empty_set) (x : unit) :
  lift (TokenBase._burn a v) s = (t, Ok (x, s')) -> steady s s'.
Proof.
  apply lift_steady.
  - intros b. apply burn_inv.
  - intros b. apply zero_kept_burn.
Qed.

Lemma lift_transfer_steady (a b v : Z) (s s' : State) (t : list Empty_set) (x : bool) :
  0 <= v -> lift (TokenBase._transfer a b v) s = (t, Ok (x, s')) -> steady s s'.
Proof.
  intros Hv. apply lift_steady.
  - intros b0. by apply transfer_inv.
  - intros b0. apply zero_kept_transfer.
Qed.

Lemma steady_set_this_balance (s : State) (v : Z) :
  0 <= v -> steady s (set_this_balance v s).
Proof. intros Hv. split_steady; auto. Qed.

Lemma buyTokens_steady (sender value : Z) (s s' : State) (t : list Empty_set) (x : unit) :
  0 <= value -> buyTokens sender value s = (t, Ok (x, s')) -> steady s s'.
Proof.
  intros Hv. unfold buyTokens, TokenBase._isValidAmount. unfold_monad.
  zcases; try discriminate. run_inner; try discriminate.
  intros [= <- <- <-]. apply lift_mint_steady in Hc; [| lia].
  eapply steady_trans; [| exact Hc].
  split_steady; auto. cbn. lia.
Qed.

Lemma call_value_steady (code : M unit) (amount : Z) (s s' : State)
    (t : list Empty_set) (ok : bool) :
  (forall s t x s', code s = (t, Ok (x, s')) -> steady s s') ->
  amount <= this_balance s ->
  call_value code amount s = (t, Ok (ok, s')) -> steady s s'.
Proof.
  intros Hcode Hle. unfold call_value. unfold_monad. zcases.
  run_inner.
  - intros [= <- <- <-]. apply Hcode in Hc. eapply steady_trans; [| exact Hc].
    split_steady; auto. cbn. lia.
  - intros [= <- <- <-]. apply steady_refl.
Qed.

Lemma sellTokens_steady (code : M unit) (sender amount : Z) :
  (forall s t x s', code s = (t, Ok (x, s')) -> steady s s') ->
  forall s t x s', sellTokens code sender amount s = (t, Ok (x, s')) -> steady s s'.
Proof.
  intros Hcode s t x s'. unfold sellTokens, TokenBase._isValidAmount, div256.
  unfold bind at 1 2 3 4 5 6 7 8. unfold require, gets, ret, revert.
  zcases; try discriminate. run_inner; try discriminate.
  destruct (lift_frame _ _ _ _ _ Hc) as [Hs0 _].
  apply lift_burn_steady in Hc.
  unfold bind.
  destruct (call_value code (amount / sellRate s) s'0) as [t1 [[ok s1]|e]] eqn:Hcv;
    [| discriminate].
  apply call_value_steady in Hcv; [| assumption |].
  - destruct ok; cbn; [| discriminate]. intros [= <- <- <-].
    eapply steady_trans; eassumption.
  - by rewrite Hs0.
Qed.

Lemma emergencyWithdraw_steady (code : M unit) (sender amount : Z) :
  (forall s t x s', code s = (t, Ok (x, s')) -> steady s s') ->
  forall s t x s',
    emergencyWithdraw code sender amount s = (t, Ok (x, s')) -> steady s s'.
Proof.
  intros Hcode s t x s'. unfold emergencyWithdraw, onlyAdmin.
  unfold bind at 1 2 3 4. unfold require, gets, ret, revert.
  destruct (isAdmin s sender); cbn; [| discriminate].
  zcases; try discriminate. unfold bind.
  destruct (call_value code amount s) as [t1 [[ok s1]|e]] eqn:Hcv; [| discriminate].
  apply call_value_steady in Hcv; [| assumption | assumption].
  destruct ok; cbn; [| discriminate]. by intros [= <- <- <-].
Qed.

(** A successful message call is a steady step, provided the code at the
    caller is. *)
Lemma pool_dispatch_steady (self : Z) (code : M unit) (c : call) :
  (forall s t x s', code s = (t, Ok (x, s')) -> steady s s') ->
  forall s t x s', dispatch code self c s = (t, Ok (x, s')) -> steady s s'.
Proof.
  intros Hcode s t x s'. destruct c; cbn [dispatch].
  - unfold transfer, bind, ret.
    destruct (lift (TokenBase._transfer self to (Z.of_N amount)) s)
      as [t0 [[b s0]|e]] eqn:Hl; [| discriminate].
    intros [= <- <- <-]. eapply lift_transfer_steady; [| exact Hl]. lia.
  - apply buyTokens_steady. lia.
  - by apply sellTokens_steady.
  - unfold updateRates. unfold_monad. zcases; try discriminate.
    intros [= <- <- <-]. split_steady; auto.
  - unfold receive. unfold_monad. cbn. intros [= <- <- <-].
    split_steady; auto. cbn. lia.
  - unfold addAdmin, onlyAdmin. unfold_monad. cbn.
    destruct (isAdmin s self) eqn:Hadm; cbn; [| discriminate].
    intros [= <- <- <-]. split_steady; auto.
    intros a Ha. unfold isAdmin in *. cbn.
    destruct (decide (newAdmin = a)) as [->|Hne].
    + by rewrite lookup_insert_eq.
    + by rewrite lookup_insert_ne.
  - unfold adminMint, onlyAdmin. unfold bind at 1 2. unfold require, gets, ret, revert.
    destruct (isAdmin s self); cbn; [| discriminate].
    run_inner; [| discriminate]. intros [= <- <- <-].
    eapply lift_mint_steady; [| exact Hc]. lia.
  - unfold adminBurn, onlyAdmin. unfold bind at 1 2. unfold require, gets, ret, revert.
    destruct (isAdmin s self); cbn; [| discriminate].
    run_inner; [| discriminate]. intros [= <- <- <-].
    eapply lift_burn_steady. exact Hc.
  - by apply emergencyWithdraw_steady.
Qed.

Lemma forced_steady (value : Z) (s s' : State) (t : list Empty_set) (x : unit) :
  0 <= value -> forced value s = (t, Ok (x, s')) -> steady s s'.
Proof.
  intros Hv. unfold forced. unfold_monad. intros [= <- <- <-].
  split_steady; auto. cbn. lia.
Qed.

Lemma pool_run_steady (r : recipient) :
  forall self s t x s', run self r s = (t, Ok (x, s')) -> steady s s'.
Proof.
  induction r as [| |k IH|c inner IHinner k IH|other c inner IHinner k IH|value k IH];
    intros self s t x s'; cbn [run].
  - unfold ret. intros [= <- <- <-]. apply steady_refl.
  - unfold revert. discriminate.
  - unfold bind, gets. cbn.
    destruct (run self (k (view s)) s) as [t' res] eqn:Hk.
    intros [= <- ->]. by eapply IH.
  - unfold bind, attempt.
    destruct (dispatch (run self inner) self c s) as [t1 [[[] s1]|e]] eqn:Hd; cbn.
    + destruct (run self (k None) s1) as [t2 res] eqn:Hk.
      intros [= <- ->]. eapply steady_trans.
      * eapply pool_dispatch_steady; [apply IHinner | apply Hd].
      * by eapply IH.
    + destruct (run self (k (Some e)) s) as [t2 res] eqn:Hk.
      intros [= <- ->]. by eapply IH.
  - unfold bind, attempt.
    destruct (dispatch (run other inner) other c s) as [t1 [[[] s1]|e]] eqn:Hd; cbn.
    + destruct (run self (k None) s1) as [t2 res] eqn:Hk.
      intros [= <- ->]. eapply steady_trans.
      * eapply pool_dispatch_steady; [apply IHinner | apply Hd].
      * by eapply IH.
    + destruct (run self (k (Some e)) s) as [t2 res] eqn:Hk.
      intros [= <- ->]. by eapply IH.
  - unfold bind.
    destruct (forced (Z.of_N value) s) as [t1 [[[] s1]|e]] eqn:Hf; [| discriminate].
    destruct (run self k s1) as [t2 res] eqn:Hk.
    intros [= <- ->]. eapply steady_trans.
    + eapply forced_steady; [| apply Hf]. lia.
    + by eapply IH.
Qed.

Lemma pool_commit_steady (s : State) (sender : Z) (r : recipient) (c : call) :
  steady s (commit (dispatch (run sender r) sender c) s).
Proof.
  unfold commit.
  destruct (dispatch (run sender r) sender c s) as [t [[[] s']|e]] eqn:Hd; cbn.
  - eapply pool_dispatch_steady; [apply pool_run_steady | exact Hd].
  - apply steady_refl.
Qed.

Lemma pool_forced_steady (s : State) (value : N) :
  steady s (commit (forced (Z.of_N value)) s).
Proof.
  unfold commit.
  destruct (forced (Z.of_N value) s) as [t [[[] s']|e]] eqn:Hf; cbn.
  - eapply forced_steady; [| exact Hf]. lia.
  - apply steady_refl.
Qed.

(** What holds between transactions. *)
Lemma pool_reachable_inv (s : State) :
  reachable s ->
  TokenBase.ledger_inv (base s) /\ TokenBase.balance (base s) 0 = 0 /\
  0 <= this_balance s /\ isAdmin s (owner s) = true.
Proof.
  induction 1 as [sender n sy supply b r s Hctor|s sender r c Hreach IH
                 |s value Hreach IH].
  - revert Hctor. unfold constructor. unfold_monad. cbn.
    destruct (lift (TokenBase._mint sender (Z.of_N supply)) _)
      as [t0 [[[] s0]|e]] eqn:Hl; cbn; [| discriminate].
    intros [= <-].
    destruct (lift_frame _ _ _ _ _ Hl) as [Hs0 _].
    apply lift_mint_steady in Hl; [| lia].
    destruct Hl as (Hinv & Hzero & _ & _ & _). cbn in Hinv, Hzero.
    split; [apply Hinv, ledger_inv_fresh | split; [by apply Hzero | split]].
    + rewrite Hs0. cbn. lia.
    + rewrite Hs0. unfold isAdmin. cbn. by rewrite lookup_insert_eq.
  - destruct IH as (Hinv & Hzero & Heth & Hadm).
    destruct (pool_commit_steady s sender r c) as (H1 & H2 & H3 & H4 & H5).
    split; [auto | split; [auto | split; [auto |]]].
    rewrite H3. by apply H4.
  - destruct IH as (Hinv & Hzero & Heth & Hadm).
    destruct (pool_forced_steady s value) as (H1 & H2 & H3 & H4 & H5).
    split; [auto | split; [auto | split; [auto |]]].
    rewrite H3. by apply H4.
Qed.


Lemma inv_balance_le_supply (b : TokenBase.State) (a : Z) :
  TokenBase.ledger_inv b -> 0 <= TokenBase.balance b a <= TokenBase._totalSupply b.
Proof.
  intros [Hnn Hsum]. split; [apply Hnn |]. rewrite Hsum. unfold TokenBase.balance in *.
  rewrite (sum_balances_split (TokenBase._balances b) a).
  assert (0 <= sum_balances (delete a (TokenBase._balances b))); [| lia].
  apply sum_balances_nonneg. intros c. destruct (decide (a = c)) as [<-|Hne].
  - by rewrite lookup_delete_eq.
  - rewrite lookup_delete_ne by assumption. apply Hnn.
Qed.

(** X20: in the deployed pool, whatever re-entrant code its users run,
    [totalSupply()] is the sum of all balances between transactions, no
    balance is negative or above the supply, the zero address holds
    nothing, and the ether balance is not negative. *)
Theorem pool_supply_invariant (s : State) :
  reachable s ->
  totalSupply s = sum_balances (TokenBase._balances (base s)) /\
  (forall a, 0 <= balanceOf s a <= totalSupply s) /\
  balanceOf s 0 = 0 /\
  0 <= this_balance s.
Proof.
  intros Hreach. destruct (pool_reachable_inv s Hreach) as (Hinv & Hzero & Heth & _).
  split; [apply Hinv | split; [| split; assumption]].
  intros a. by apply inv_balance_le_supply.
Qed.

Lemma pool_traded_reachable : reachable pool_traded.
Proof.
  apply reach_call. by apply (reach_deploy 1 "Pool" "POOL" 1000 10 10).
Defined.

Lemma pool_supply_invariant_witness :
  totalSupply pool_traded = sum_balances (TokenBase._balances (base pool_traded)) /\
  0 <= balanceOf pool_traded 2 <= totalSupply pool_traded.
Proof.
  destruct (pool_supply_invariant pool_traded pool_traded_reachable) as (Hsum & Hall & _).
  split; [exact Hsum | apply Hall].
Defined.



(** X22: the admin functions turn away everyone who is not an admin, and
    [updateRates] everyone but the owner, before doing anything: the call
    reverts with the reason of the guard and the recipient's code is not
    run. *)
Theorem pool_access_control (s : State) (sender : Z) (code : M unit) :
  (isAdmin s sender = false ->
   forall a n,
     addAdmin sender a s = ([], Err (Error "Admin access required")) /\
     adminMint sender a n s = ([], Err (Error "Admin access required")) /\
     adminBurn sender a n s = ([], Err (Error "Admin access required")) /\
     emergencyWithdraw code sender n s = ([], Err (Error "Admin access required"))) /\
  (sender <> owner s ->
   forall b r,
     updateRates sender b r s = ([], Err (Error "Only owner can update rates"))).
Proof.
  split.
  - intros Hno a n.
    unfold addAdmin, adminMint, adminBurn, emergencyWithdraw, onlyAdmin. unfold_monad.
    cbn. rewrite Hno. repeat split; reflexivity.
  - intros Hne b r. unfold updateRates. unfold_monad. zcases; done.
Qed.

Lemma pool_access_control_witness :
  outcome (adminMint 2 2 1000000) pool_traded = Err (Error "Admin access required") /\
  outcome (updateRates 2 1 1) pool_traded = Err (Error "Only owner can update rates").
Proof.
  destruct (pool_access_control pool_traded 2 (run 2 Return)) as [Hadm Hown].
  split.
  - unfold outcome. destruct (Hadm ltac:(by vm_compute) 2 1000000) as (_ & -> & _).
    reflexivity.
  - unfold outcome. by rewrite (Hown ltac:(by vm_compute) 1 1).
Defined.

(** X23: a rate of zero closes its side of the market: with [sellRate]
    zero no [sellTokens] call succeeds (one that passes the checks dies on
    the division with panic 0x12), and with [buyRate] zero no [buyTokens]
    call succeeds (a paid one is turned away as "Invalid amount"). *)
Theorem pool_zero_rate_blocks_trading (s : State) (sender : Z) :
  (sellRate s = 0 ->
   forall code amount,
     (exists e, outcome (sellTokens code sender amount) s = Err e) /\
     (0 < amount <= balanceOf s sender ->
      outcome (sellTokens code sender amount) s = Err (Panic 18))) /\
  (buyRate s = 0 ->
   forall value,
     (exists e, outcome (buyTokens sender value) s = Err e) /\
     (0 < value -> outcome (buyTokens sender value) s = Err (Error "Invalid amount"))).
Proof.
  split.
  - intros Hrate code amount.
    unfold sellTokens, TokenBase._isValidAmount, div256. unfold_monad.
    unfold balanceOf in *.
    split; [| intros [Hpos Hbal]];
      repeat first [rewrite Hrate; cbn | zcase; try lia];
      try (eexists; reflexivity); reflexivity.
  - intros Hrate value.
    unfold buyTokens, TokenBase._isValidAmount.
    unfold_monad. pose proof UINT256_MAX_pos.
    split; [| intros Hpos];
      repeat first [rewrite Hrate, Z.mul_0_r; cbn | zcase; try lia | progress cbn];
      try (eexists; reflexivity); reflexivity.
Qed.

Lemma pool_zero_rate_blocks_trading_witness :
  let s := commit (updateRates 1 0 0) pool_traded in
  outcome (sellTokens (run 2 Return) 2 50) s = Err (Panic 18) /\
  outcome (buyTokens 2 7) s = Err (Error "Invalid amount").
Proof.
  intros s.
  destruct (pool_zero_rate_blocks_trading s 2) as [Hsell Hbuy].
  split.
  - apply (Hsell eq_refl (run 2 Return) 50). by vm_compute.
  - apply (Hbuy eq_refl 7). lia.
Defined.

(** What a lifted [_mint] and [_burn] do to a pool whose ledger satisfies
    the invariant. *)
Lemma lift_mint_effect (s : State) (a v : Z) :
  TokenBase.ledger_inv (base s) -> a <> 0 -> 0 <= v ->
  totalSupply s + v <= UINT256_MAX ->
  lift (TokenBase._mint a v) s =
  ([], Ok (tt, set_base (TokenBase.mkState
                           (<[a := balanceOf s a + v]> (TokenBase._balances (base s)))
                           (totalSupply s + v)
                           (TokenBase.log (base s) ++ [TokenBase.Transfer 0 a v])) s)).
Proof.
  intros Hinv Ha Hv Hroom. pose proof (inv_balance_le_supply (base s) a Hinv) as Hb.
  unfold lift, totalSupply, balanceOf, TokenBase._mint, TokenBase.credit, TokenBase.emit,
    TokenBase.set_balance, TokenBase.set_totalSupply, TokenBase.balance in *.
  unfold_monad. zcases. reflexivity.
Qed.

Lemma lift_burn_effect (s : State) (a v : Z) :
  TokenBase.ledger_inv (base s) -> a <> 0 -> v <= balanceOf s a ->
  lift (TokenBase._burn a v) s =
  ([], Ok (tt, set_base (TokenBase.mkState
                           (<[a := balanceOf s a - v]> (TokenBase._balances (base s)))
                           (totalSupply s - v)
                           (TokenBase.log (base s) ++ [TokenBase.Transfer a 0 v])) s)).
Proof.
  intros Hinv Ha Hv. pose proof (inv_balance_le_supply (base s) a Hinv) as Hb.
  unfold lift, totalSupply, balanceOf, TokenBase._burn, TokenBase.debit, TokenBase.emit,
    TokenBase.set_balance, TokenBase.set_totalSupply, TokenBase.balance in *.
  unfold_monad. zcases. reflexivity.
Qed.

(** A holder of tokens is not the zero address. *)
Lemma holder_not_zero (s : State) (a : Z) :
  TokenBase.balance (base s) 0 = 0 -> 0 < balanceOf s a -> a <> 0.
Proof. unfold balanceOf. intros Hz Hpos ->. lia. Qed.

(** What a sale does, when it goes through with a recipient that accepts
    the ether. *)
Lemma sellTokens_effect (s : State) (sender amount : Z) :
  TokenBase.ledger_inv (base s) -> TokenBase.balance (base s) 0 = 0 ->
  0 < amount <= balanceOf s sender ->
  0 < sellRate s -> 0 <= amount / sellRate s <= this_balance s ->
  sellTokens (ret tt) sender amount s =
  ([], Ok (tt, set_this_balance (this_balance s - amount / sellRate s)
                 (set_base (TokenBase.mkState
                      (<[sender := balanceOf s sender - amount]>
                         (TokenBase._balances (base s)))
                      (totalSupply s - amount)
                      (TokenBase.log (base s) ++ [TokenBase.Transfer sender 0 amount])) s))).
Proof.
  intros Hinv Hz [Hpos Hbal] Hrate [Hq Hliq].
  assert (sender <> 0) as Hs by (apply (holder_not_zero s); [assumption | lia]).
  pose proof (lift_burn_effect s sender amount Hinv Hs Hbal) as Hburn.
  unfold sellTokens, call_value, TokenBase._isValidAmount, div256. unfold_monad.
  repeat first [rewrite Hburn; cbn [set_base this_balance] | zcase; try lia].
  reflexivity.
Qed.

(** What a purchase does, when the minted amount fits. *)
Lemma buyTokens_effect (s : State) (sender value : Z) :
  TokenBase.ledger_inv (base s) -> sender <> 0 ->
  0 < value -> 0 < buyRate s ->
  totalSupply s + value * buyRate s <= UINT256_MAX ->
  buyTokens sender value s =
  ([], Ok (tt, set_base (TokenBase.mkState
                  (<[sender := balanceOf s sender + value * buyRate s]>
                     (TokenBase._balances (base s)))
                  (totalSupply s + value * buyRate s)
                  (TokenBase.log (base s) ++
                     [TokenBase.Transfer 0 sender (value * buyRate s)]))
                 (set_this_balance (this_balance s + value) s))).
Proof.
  intros Hinv Hs Hpos Hrate Hroom.
  assert (0 < value * buyRate s) as Hamount by nia.
  pose proof (inv_balance_le_supply (base s) sender Hinv) as Hb.
  assert (value * buyRate s <= UINT256_MAX) as Hfits
    by (unfold totalSupply in Hroom; lia).
  pose proof (lift_mint_effect (set_this_balance (this_balance s + value) s) sender
                (value * buyRate s) Hinv Hs ltac:(lia) Hroom) as Hmint.
  unfold buyTokens, TokenBase._isValidAmount. unfold_monad.
  cbn [set_this_balance buyRate this_balance].
  repeat first [rewrite Hmint; cbn [set_base this_balance] | zcase; try lia].
  reflexivity.
Qed.

(** X24: selling fewer tokens than [sellRate] pays nothing: for a holder
    of the pool who has them, the sale goes through, the tokens are
    burned from the balance and the supply, and the ether of the contract
    stays where it is. *)
Theorem pool_sell_dust (s : State) (sender amount : Z) :
  reachable s ->
  0 < amount < sellRate s ->
  amount <= balanceOf s sender ->
  exists s',
    outcome (sellTokens (run sender Return) sender amount) s = Ok (tt, s') /\
    balanceOf s' sender = balanceOf s sender - amount /\
    totalSupply s' = totalSupply s - amount /\
    this_balance s' = this_balance s.
Proof.
  intros Hreach Hdust Hbal.
  destruct (pool_reachable_inv s Hreach) as (Hinv & Hzero & Heth & _).
  assert (amount / sellRate s = 0) as Hq by (apply Z.div_small; lia).
  cbn [run]. unfold outcome.
  rewrite sellTokens_effect by (try assumption; rewrite ?Hq; lia).
  eexists. split; [reflexivity |]. rewrite Hq.
  unfold balanceOf, totalSupply, TokenBase.balance. cbn.
  rewrite lookup_insert_eq. cbn. repeat split; lia.
Qed.

Lemma pool_sell_dust_witness :
  exists s',
    outcome (sellTokens (run 2 Return) 2 9) pool_traded = Ok (tt, s') /\
    balanceOf s' 2 = 41 /\ this_balance s' = 5.
Proof.
  destruct (pool_sell_dust pool_traded 2 9 pool_traded_reachable)
    as (s' & Hout & Hbal & _ & Heth); [by vm_compute | by vm_compute |].
  exists s'. split; [exact Hout |]. rewrite Hbal, Heth. split; by vm_compute.
Defined.

(** X25: buying and selling back at once: when the purchase fits and the
    pool can pay, both calls succeed, every token balance and the supply
    are what they were, and the buyer paid [value] and received
    [value * buyRate / sellRate]; with equal rates the ether of the
    contract is unchanged too. *)
Theorem pool_buy_then_sell (s : State) (sender value : Z) :
  reachable s ->
  sender <> 0 -> 0 < value ->
  0 < buyRate s -> 0 < sellRate s ->
  totalSupply s + value * buyRate s <= UINT256_MAX ->
  value * buyRate s / sellRate s <= this_balance s + value ->
  exists s1 s2,
    outcome (buyTokens sender value) s = Ok (tt, s1) /\
    outcome (sellTokens (run sender Return) sender (value * buyRate s)) s1 = Ok (tt, s2) /\
    (forall a, balanceOf s2 a = balanceOf s a) /\
    totalSupply s2 = totalSupply s /\
    this_balance s2 = this_balance s + value - value * buyRate s / sellRate s /\
    (buyRate s = sellRate s -> this_balance s2 = this_balance s).
Proof.
  intros Hreach Hs Hpos Hbuy Hsell Hroom Hliq.
  destruct (pool_reachable_inv s Hreach) as (Hinv & Hzero & Heth & _).
  pose proof (inv_balance_le_supply (base s) sender Hinv) as Hb.
  assert (0 < value * buyRate s) as Hamount by nia.
  assert (0 <= value * buyRate s / sellRate s) as Hq by (apply Z.div_pos; lia).
  pose proof (buyTokens_effect s sender value Hinv Hs Hpos Hbuy Hroom) as Hbought.
  pose proof (commit_of_ok _ _ _ _ _ Hbought) as Hs1.
  pose proof (pool_commit_steady s sender Return (buyTokens_ (Z.to_N value))) as Hsteady.
  cbn [dispatch run] in Hsteady. rewrite Z2N.id in Hsteady by lia.
  rewrite Hs1 in Hsteady. destruct Hsteady as (Hinv1 & Hzero1 & _).
  do 2 eexists. unfold outcome. rewrite Hbought. cbn [snd run].
  split; [reflexivity |].
  rewrite sellTokens_effect;
    [| by apply Hinv1 | by apply Hzero1
     | unfold balanceOf, TokenBase.balance; cbn; rewrite lookup_insert_eq; cbn;
       unfold balanceOf, TokenBase.balance in Hb; lia
     | exact Hsell | cbn; lia ].
  cbn [snd]. split; [reflexivity |].
  unfold balanceOf, totalSupply, TokenBase.balance in *. cbn.
  repeat match goal with |- _ /\ _ => split end; try lia.
  - intros a. rewrite lookup_insert_eq. cbn. rewrite !balance_insert.
    case_decide; [subst; lia | reflexivity].
  - intros Heq. rewrite Heq, Z.div_mul by lia. lia.
Qed.

Lemma pool_buy_then_sell_witness :
  exists s1 s2,
    outcome (buyTokens 3 4) pool_traded = Ok (tt, s1) /\
    outcome (sellTokens (run 3 Return) 3 40) s1 = Ok (tt, s2) /\
    totalSupply s2 = 1050 /\ this_balance s2 = 5.
Proof.
  destruct (pool_buy_then_sell pool_traded 3 4 pool_traded_reachable)
    as (s1 & s2 & Hbuy & Hsell & _ & Hts & _ & Heth);
    [lia | lia | by vm_compute | by vm_compute | by vm_compute | by vm_compute |].
  exists s1, s2. split; [exact Hbuy |]. split; [exact Hsell |].
  rewrite Hts, (Heth eq_refl). split; by vm_compute.
Defined.
End AdminExtensionMore.

(** ** ConstructorAndFallback: counters, names and withdrawal *)

Section ConstructorAndFallbackMore.
Import ConstructorAndFallback.

Lemma fallback_events_snoc (l : list event) (e : event) :
  fallback_events (l ++ [e]) = fallback_events l + (if is_fallback e then 1 else 0).
Proof.
  unfold fallback_events. rewrite filter_app, length_app.
  destruct e; cbn; case_decide; try done; cbn; lia.
Qed.

Lemma last_value_snoc (l : list event) (e : event) : last_value (l ++ [e]) = value_of e.
Proof. unfold last_value. by rewrite last_snoc. Qed.

Lemma last_logged_snoc (l : list event) (e : event) :
  last_logged (l ++ [e]) = if is_fallback e then "fallback" else "receive".
Proof. unfold last_logged. rewrite last_snoc. by destruct e. Qed.

Ltac split_consistent := split; [| split; [| split; [| split; [| split]]]].

(** Reading a field of an updated record. *)
Ltac fields :=
  cbn [owner creationTime lastCallValue fallbackCallCount lastFunctionCalled
       this_balance log constructor set_this_balance set_lastCallValue
       set_fallbackCallCount set_lastFunctionCalled is_fallback value_of snd] in *.

Lemma consistent_deploy (d t : Z) : consistent d t (constructor d t).
Proof. split_consistent; fields; try reflexivity; try lia. by right. Qed.

Lemma consistent_set_this_balance (d t : Z) (s : State) (v : Z) :
  consistent d t s -> 0 <= v -> consistent d t (set_this_balance v s).
Proof.
  intros (H1 & H2 & H3 & H4 & H5 & H6) Hv. by split_consistent.
Qed.

Lemma forced_consistent (d t : Z) (s : State) (value : N) :
  consistent d t s -> consistent d t (commit (forced (Z.of_N value)) s).
Proof.
  intros Hs. unfold forced. unfold_monad. cbn [snd].
  apply consistent_set_this_balance; [assumption |].
  destruct Hs as (_ & _ & _ & _ & H5 & _). lia.
Qed.

Lemma doSomething_consistent (d t : Z) (s : State) :
  consistent d t s -> consistent d t (commit doSomething s).
Proof.
  intros (H1 & H2 & H3 & H4 & H5 & H6). unfold doSomething. unfold_monad.
  split_consistent; fields; try assumption. by left.
Qed.

Lemma fallback_consistent (d t : Z) (s : State) (sender : Z) (value : N) :
  consistent d t s -> consistent d t (commit (fallback sender (Z.of_N value)) s).
Proof.
  intros (H1 & H2 & H3 & H4 & H5 & H6).
  unfold fallback, emit. unfold_monad. fields.
  destruct (Z.leb_spec (fallbackCallCount s + 1) UINT256_MAX); fields.
  - split_consistent; fields; try assumption;
      rewrite ?fallback_events_snoc, ?last_value_snoc, ?last_logged_snoc;
      fields; try lia; try reflexivity. by right.
  - by split_consistent.
Qed.

Lemma receive_consistent (d t : Z) (s : State) (sender : Z) (value : N) :
  consistent d t s -> consistent d t (commit (receive sender (Z.of_N value)) s).
Proof.
  intros (H1 & H2 & H3 & H4 & H5 & H6).
  unfold receive, emit. unfold_monad. fields.
  split_consistent; fields; try assumption;
    rewrite ?fallback_events_snoc, ?last_value_snoc, ?last_logged_snoc;
    fields; try lia; try reflexivity. by right.
Qed.

(** [withdraw] keeps the storage consistent when the owner's code does. *)
Lemma withdraw_consistent (d t : Z) (code : M unit) (sender : Z) (s : State) :
  (forall s0, consistent d t s0 -> consistent d t (commit code s0)) ->
  consistent d t s -> consistent d t (commit (withdraw code sender) s).
Proof.
  intros Hcode Hs.
  pose proof (Hcode (set_this_balance (this_balance s - this_balance s) s)) as Hc.
  unfold withdraw, call_value. unfold_monad. zcases; try assumption.
  destruct (code _) as [tr [[x s1]|err]] eqn:Hrun; cbn in *; [| assumption].
  apply Hc. apply consistent_set_this_balance; [assumption | lia].
Qed.

Lemma dispatch_consistent (d t : Z) (code : M unit) (sender : Z) (c : call) (s : State) :
  (forall s0, consistent d t s0 -> consistent d t (commit code s0)) ->
  consistent d t s -> consistent d t (commit (dispatch code sender c) s).
Proof.
  intros Hcode Hs. destruct c; cbn [dispatch].
  - by apply doSomething_consistent.
  - by apply fallback_consistent.
  - by apply receive_consistent.
  - by apply withdraw_consistent.
Qed.

(** One call back into the contract, then the rest of the code. *)
Lemma call_consistent (d t : Z) (self caller : Z) (c : call) (inner : recipient)
    (k : option error -> recipient) (s : State) :
  (forall s0, consistent d t s0 -> consistent d t (commit (run caller inner) s0)) ->
  (forall e s0, consistent d t s0 -> consistent d t (commit (run self (k e)) s0)) ->
  consistent d t s ->
  consistent d t
    (commit (e <- attempt (dispatch (run caller inner) caller c) ;; run self (k e)) s).
Proof.
  intros IHinner IH Hs.
  pose proof (dispatch_consistent d t (run caller inner) caller c s IHinner Hs) as Hd.
  unfold_monad. unfold commit in Hd.
  destruct (dispatch (run caller inner) caller c s) as [tr [[x s1]|e]]; cbn in *.
  - pose proof (IH None s1 Hd) as Hk. unfold commit in Hk.
    destruct (run self (k None) s1) as [tr' [[y s2]|e']]; cbn in *; assumption.
  - pose proof (IH (Some e) s Hs) as Hk. unfold commit in Hk.
    destruct (run self (k (Some e)) s) as [tr' [[y s2]|e']]; cbn in *; assumption.
Qed.

Lemma run_consistent (d t : Z) (r : recipient) :
  forall self s, consistent d t s -> consistent d t (commit (run self r) s).
Proof.
  induction r as [| |k IH|c inner IHinner k IH|other c inner IHinner k IH|value k IH];
    intros self s Hs; cbn [run].
  - exact Hs.
  - exact Hs.
  - pose proof (IH (view s) self s Hs) as Hk. unfold_monad.
    destruct (run self (k (view s)) s) as [tr [[y s2]|e']]; cbn in *; assumption.
  - apply call_consistent; [apply IHinner | intros e; apply IH | exact Hs].
  - apply call_consistent; [apply IHinner | intros e; apply IH | exact Hs].
  - pose proof (forced_consistent d t s value Hs) as Hf.
    pose proof (IH self _ Hf) as Hk. revert Hk.
    unfold forced. unfold_monad. cbn [snd].
    destruct (run self k _) as [tr [[y s2]|e']]; cbn; [done |].
    intros _. exact Hs.
Qed.

Lemma deployed_consistent (d t : Z) (s : State) : deployed d t s -> consistent d t s.
Proof.
  induction 1 as [|s sender r c _ IH|s value _ IH].
  - apply consistent_deploy.
  - apply dispatch_consistent; [| exact IH]. intros s0. apply run_consistent.
  - by apply forced_consistent.
Qed.

Lemma fallback_paid_deployed : deployed 1 1700000000 fallback_paid.
Proof. apply reach_call, reach_call, reach_deploy. Defined.

(** X26: the storage of ConstructorAndFallback agrees with its event log,
    whatever was called and re-entered: [fallbackCallCount] is the number
    of [FallbackCalled] events, [lastCallValue] the ether of the latest
    event (zero before the first), and [lastFunctionCalled] is
    "doSomething" or names the latest event ("constructor" before the
    first); [withdraw] never records itself. *)
Theorem caf_storage_tracks_log (d t : Z) (s : State) :
  deployed d t s ->
  fallbackCallCount s = fallback_events (log s) /\
  lastCallValue s = last_value (log s) /\
  (lastFunctionCalled s = "doSomething" \/ lastFunctionCalled s = last_logged (log s)) /\
  lastFunctionCalled s <> "withdraw".
Proof.
  intros Hd. destruct (deployed_consistent d t s Hd) as (_ & _ & H3 & H4 & _ & H6).
  repeat split; try assumption.
  destruct H6 as [-> | ->]; [discriminate |].
  unfold last_logged. destruct (last (log s)) as [[? ?|? ?]|]; discriminate.
Qed.

Lemma caf_storage_tracks_log_witness :
  fallbackCallCount fallback_paid = 1 /\ lastCallValue fallback_paid = 3 /\
  lastFunctionCalled fallback_paid <> "withdraw".
Proof.
  destruct (caf_storage_tracks_log 1 1700000000 fallback_paid fallback_paid_deployed)
    as (Hc & Hv & _ & Hn).
  split; [rewrite Hc; by vm_compute | split; [rewrite Hv; by vm_compute | exact Hn]].
Defined.

(** X27: the owner and the creation time are those of the deployment for
    good, [getBalance()] is never negative, and only the owner takes
    ether out: no call from another account, whatever its code, lowers
    [getBalance()]; ether may also arrive without a call, so the balance
    can exceed what the logged calls brought in. *)
Theorem caf_owner_and_ether (d t : Z) (s : State) :
  deployed d t s ->
  owner s = d /\ creationTime s = t /\
  0 <= getBalance s /\
  (forall sender code c,
     sender <> d ->
     getBalance s <= getBalance (commit (dispatch code sender c) s)).
Proof.
  intros Hd. destruct (deployed_consistent d t s Hd) as (H1 & H2 & _ & _ & H5 & _).
  unfold getBalance. repeat split; try assumption.
  intros sender code c Hne. destruct c; cbn [dispatch].
  - unfold doSomething. unfold_monad. cbn. lia.
  - unfold fallback, emit. unfold_monad. cbn.
    destruct (Z.leb_spec (fallbackCallCount s + 1) UINT256_MAX); cbn; lia.
  - unfold receive, emit. unfold_monad. cbn. lia.
  - unfold withdraw. unfold_monad. rewrite H1.
    destruct (Z.eqb_spec sender d); [contradiction | cbn; lia].
Qed.

Lemma caf_owner_and_ether_witness :
  let s := commit (forced 5) fallback_paid in
  owner s = 1 /\ 0 <= getBalance s /\
  getBalance s <= getBalance (commit (dispatch (run 2 Return) 2 withdraw_) s).
Proof.
  intros s.
  destruct (caf_owner_and_ether 1 1700000000 s
              (reach_forced _ _ _ 5 fallback_paid_deployed))
    as (Ho & _ & Hb & Hup).
  split; [exact Ho | split; [exact Hb |]].
  apply Hup. lia.
Defined.

(** X28: [withdraw] turns away everyone but the owner with "Only owner
    can withdraw"; for the owner it cannot run short, since it sends
    exactly what the contract holds: an accepting owner empties the
    contract and nothing else changes, and an owner whose code reverts
    gets "Withdrawal failed". *)
Theorem caf_withdraw (d t : Z) (s : State) :
  deployed d t s ->
  (forall sender code, sender <> d ->
     withdraw code sender s = ([], Err (Error "Only owner can withdraw"))) /\
  outcome (withdraw (run d Return) d) s = Ok (tt, set_this_balance 0 s) /\
  outcome (withdraw (run d Revert) d) s = Err (Error "Withdrawal failed").
Proof.
  intros Hd. destruct (deployed_consistent d t s Hd) as (H1 & _).
  split; [| split].
  - intros sender code Hne. unfold withdraw. unfold_monad. rewrite H1.
    destruct (Z.eqb_spec sender d); [contradiction | reflexivity].
  - unfold withdraw, call_value. cbn [run]. unfold_monad.
    rewrite H1, Z.eqb_refl. cbn. rewrite Z.ltb_irrefl, Z.sub_diag. reflexivity.
  - unfold withdraw, call_value. cbn [run]. unfold_monad.
    rewrite H1, Z.eqb_refl. cbn. rewrite Z.ltb_irrefl. reflexivity.
Qed.

Lemma caf_withdraw_witness :
  outcome (withdraw (run 2 Return) 2) fallback_paid =
    Err (Error "Only owner can withdraw") /\
  getBalance (commit (withdraw (run 1 Return) 1) fallback_paid) = 0.
Proof.
  destruct (caf_withdraw 1 1700000000 fallback_paid fallback_paid_deployed)
    as (Hno & Hyes & _).
  split.
  - unfold outcome. by rewrite (Hno 2 (run 2 Return) ltac:(lia)).
  - unfold commit. unfold outcome in Hyes. rewrite Hyes. reflexivity.
Defined.
End ConstructorAndFallbackMore.
